(** * Click_Config: click classification and click-driven regex selection

    A shallow embedding of [trunk/click_config.py], the module of the
    plugin that handles the mouse:

    - the left-button press handlers of [ClickConfigWindowHelper]
      ([_handle_1button_press], [_handle_2button_press],
      [_handle_3button_press]) together with the [_time_of_last_click]
      list they read and update;
    - the scanning loop [_find_text], run against a model of the
      [search] method of a compiled pattern of Python's [re] module;
    - the selection functions around it ([_get_line_iter_pair],
      [_select_single_line_regex], [_select_multiple_line_regex],
      [_select_regex], [_make_assigned_selection]) and
      [_handle_button_press], which leads from a press to a selection;
    - the dictionary of the mouse handlers of the views ([_connect_view],
      [_connect_mouse_handler], [_disconnect_mouse_handlers]).

    Calls to the logger are left out: they never touch the data the
    handlers or the scanner compute with. *)

From Stdlib Require Import ZArith QArith Lqa Lia Bool Ascii String.
From stdpp Require Import base list gmap.

Open Scope Q_scope.

(** ** Python values and exceptions *)

(** [_time_of_last_click] starts as [[None, 0, 0, 0, 0, 0]]: its entries
    are either [None] or a number.  Times come from [time.time()], seconds
    as a float; they are modelled as exact rationals. *)
Inductive pyval : Type :=
| PyNone
| PyNum (t : Q).

Inductive exn : Type :=
| IndexError
| TypeError.

(** ** The state of a window helper that the press handlers use *)

Record helper : Type := Helper {
  _time_of_last_click : list pyval;
  _double_click_time : Q
}.

(** [self._time_of_last_click = [None, 0, 0, 0, 0, 0]] and
    [self._double_click_time = float(gtk_doubleclick_ms)/1000]. *)
Definition init (double_click_time : Q) : helper :=
  Helper [PyNone; PyNum 0; PyNum 0; PyNum 0; PyNum 0; PyNum 0]
         double_click_time.

(** ** A state and exception monad for the methods *)

Definition Py (A : Type) : Type := helper -> exn + (A * helper).

Definition raise {A} (e : exn) : Py A := fun _ => inl e.

Definition ret {A} (a : A) : Py A := fun h => inr (a, h).

Definition bind {A B} (c : Py A) (k : A -> Py B) : Py B :=
  fun h => match c h with
           | inl e => inl e
           | inr (a, h') => k a h'
           end.

Notation "'let!' x ':=' c 'in' k" := (bind c (fun x => k))
  (at level 10, x name, c at level 100, k at level 200,
   format "'[v' 'let!'  x  :=  c  'in' '/' k ']'").
Notation "c >> k" := (bind c (fun _ => k))
  (at level 60, right associativity).

(** [self._time_of_last_click[i]] *)
Definition getitem (i : nat) : Py pyval :=
  fun h => match _time_of_last_click h !! i with
           | Some v => inr (v, h)
           | None => inl IndexError
           end.

(** [self._time_of_last_click[i] = now] *)
Definition setitem (i : nat) (now : Q) : Py unit :=
  fun h => if (i <? length (_time_of_last_click h))%nat
           then inr (tt, Helper (<[i := PyNum now]> (_time_of_last_click h))
                                (_double_click_time h))
           else inl IndexError.

(** [now - v]: a float minus [None] raises [TypeError]. *)
Definition py_sub (now : Q) (v : pyval) : Py Q :=
  match v with
  | PyNum t => ret (now - t)
  | PyNone => raise TypeError
  end.

(** [self._double_click_time] *)
Definition double_click_time : Py Q :=
  fun h => inr (_double_click_time h, h).

Definition Qltb (x y : Q) : bool :=
  if Qlt_le_dec x y then true else false.

(** The test of every branch:
    [now - self._time_of_last_click[i] < self._double_click_time]. *)
Definition within (now : Q) (i : nat) : Py bool :=
  let! v := getitem i in
  let! d := py_sub now v in
  let! interval := double_click_time in
  ret (Qltb d interval).

(** ** The three press handlers

    Each returns the pair [(handled, click)]. *)

Definition _handle_1button_press (now : Q) : Py (bool * option nat) :=
  let! b4 := within now 4 in
  if b4 then
     setitem 5 now >> ret (false, Some 5%nat)
   else
     let! b3 := within now 3 in
     if b3 then
       setitem 4 now >> ret (false, Some 4%nat)
     else
       let! b2 := within now 2 in
       if b2 then
         ret (true, None)
       else
         let! b1 := within now 1 in
         if b1 then
           ret (true, None)
         else
           setitem 1 now >> ret (false, Some 1%nat).

Definition _handle_2button_press (now : Q) : Py (bool * option nat) :=
  let! b4 := within now 4 in
  if b4 then
     ret (true, None)
   else
     setitem 2 now >> ret (false, Some 2%nat).

Definition _handle_3button_press (now : Q) : Py (bool * option nat) :=
  let! b5 := within now 5 in
  if b5 then
     ret (true, None)
   else
     setitem 3 now >> ret (false, Some 3%nat).

(** The event types of a left-button press, and the dispatch table
    [handlers_by_type] of [_handle_button_press]. *)
Inductive press : Type :=
| BUTTON_PRESS
| _2BUTTON_PRESS
| _3BUTTON_PRESS.

Definition handlers_by_type (ty : press) : Q -> Py (bool * option nat) :=
  match ty with
  | BUTTON_PRESS => _handle_1button_press
  | _2BUTTON_PRESS => _handle_2button_press
  | _3BUTTON_PRESS => _handle_3button_press
  end.

(** A stream of presses handled one after the other, each with the time
    [now] read when it arrives; the results are collected in order. *)
Fixpoint presses (evs : list (press * Q)) : Py (list (bool * option nat)) :=
  match evs with
  | [] => ret []
  | (ty, now) :: evs' =>
      let! r := handlers_by_type ty now in
       let! rs := presses evs' in
       ret (r :: rs)
  end.

(** ** Reading the click record *)

(** The time held at entry [L], when that entry exists and is a number. *)
Definition last_click (h : helper) (L : nat) : option Q :=
  match _time_of_last_click h !! L with
  | Some (PyNum t) => Some t
  | _ => None
  end.

(** The helper after [self._time_of_last_click[L] = now] and nothing else. *)
Definition record (L : nat) (now : Q) (h : helper) : helper :=
  Helper (<[L := PyNum now]> (_time_of_last_click h)) (_double_click_time h).

(** The shape [__init__] gives the list and every handler keeps: six
    entries, those at 1..5 numbers. *)
Definition well_formed (h : helper) : Prop :=
  length (_time_of_last_click h) = 6%nat /\
  forall L, (1 <= L <= 5)%nat -> is_Some (last_click h L).

(** A press at [now] that is earlier than every recorded time; a press
    counted as a fresh single click or suppressed; a press for which the
    check of every slot fails. *)
Definition clock_went_backward (h : helper) (now : Q) : Prop :=
  forall L t, (1 <= L <= 5)%nat -> last_click h L = Some t -> now < t.

Definition fresh_or_suppressed (now : Q) (h : helper) : Prop :=
  exists r h', _handle_1button_press now h = inr (r, h') /\
               (r = (false, Some 1%nat) \/ r = (true, None)).

Definition all_checks_fail (now : Q) (h : helper) : Prop :=
  forall L, (1 <= L <= 5)%nat -> within now L h = inr (false, h).

(** What a handler call that returned [r] and left [h'] did to [h]: it
    suppressed the press and changed nothing, or it emitted level [L] and
    set entry [L] of the record to [now] and nothing else. *)
Definition suppressed (h : helper) (r : bool * option nat) (h' : helper) : Prop :=
  r = (true, None) /\ h' = h.

Definition emitted (now : Q) (h : helper) (L : nat)
    (r : bool * option nat) (h' : helper) : Prop :=
  (1 <= L <= 5)%nat /\ r = (false, Some L) /\
  h' = record L now h /\
  _time_of_last_click h' !! L = Some (PyNum now) /\
  (forall j, j <> L ->
     _time_of_last_click h' !! j = _time_of_last_click h !! j) /\
  _double_click_time h' = _double_click_time h.

(** A press at [now] that is earlier than every time recorded so far: a
    slot holds a time later than [now] or, never written, still the 0 of
    [__init__]. *)
Definition earlier_than_recorded (h : helper) (now : Q) : Prop :=
  forall L t, (1 <= L <= 5)%nat -> last_click h L = Some t ->
              t == 0 \/ now < t.

(** A record with three clicks recorded shortly after time 1000 and slots
    4 and 5 never written, for a press arriving at 999. *)
Definition partly_written : helper :=
  Helper [PyNone; PyNum 1000; PyNum 1000.1; PyNum 1000.2; PyNum 0; PyNum 0]
         0.4.

(** A record whose five times are all 10, for a press arriving at 5. *)
Definition skewed : helper :=
  Helper [PyNone; PyNum 10; PyNum 10; PyNum 10; PyNum 10; PyNum 10] 0.4.

Close Scope Q_scope.

(** ** Compiled patterns of Python's [re]

    [_find_text] only calls [word_re.search(source_text, pos)] and reads
    the [span()] of the match object it gets: a compiled pattern is
    modelled by that method, [None] when there is no match. *)
Record SRE_Pattern : Type := { search : string -> nat -> option (nat * nat) }.

(** The [re] module is not part of the plugin.  Its matcher is modelled
    for the fragment below, as the backtracking matcher it is: alternatives
    in order, greedy repetition, leftmost match first. *)
Inductive regex : Type :=
| Empty                                      (* the empty pattern *)
| Lit (c : ascii)                            (* a literal character *)
| Any                                        (* [.] *)
| CharSet (negate : bool) (ranges : list (ascii * ascii))   (* [[a-z_]], [[^...]] *)
| Bol                                        (* [^] *)
| Eol                                        (* [$] *)
| Seq (r1 r2 : regex)
| Alt (r1 r2 : regex)                        (* [r1|r2] *)
| Star (r : regex).                          (* [r*] *)

(** [r+] *)
Definition Plus (r : regex) : regex := Seq r (Star r).

Record re_flags : Type := { MULTILINE : bool; DOTALL : bool }.

Definition newline : ascii := "010"%char.

Definition in_range (c : ascii) (lo_hi : ascii * ascii) : bool :=
  (nat_of_ascii lo_hi.1 <=? nat_of_ascii c) &&
  (nat_of_ascii c <=? nat_of_ascii lo_hi.2).

Section Matcher.

Variables (fl : re_flags) (T : string).

(** [^]: at the start of the string and, with [MULTILINE], after each
    newline. *)
Definition at_bol (i : nat) : bool :=
  match i with
  | O => true
  | S i' => MULTILINE fl &&
            match String.get i' T with
            | Some c => Ascii.eqb c newline
            | None => false
            end
  end.

(** [$]: at the end of the string and before a newline that ends it; with
    [MULTILINE], before each newline. *)
Definition at_eol (i : nat) : bool :=
  (i =? String.length T) ||
  match String.get i T with
  | Some c => Ascii.eqb c newline &&
              (MULTILINE fl || (S i =? String.length T))
  | None => false
  end.

(** One character matched by [ok] at [i]. *)
Definition one (ok : ascii -> bool) (i : nat)
    (k : nat -> option nat) : option nat :=
  match String.get i T with
  | Some c => if ok c then k (S i) else None
  | None => None
  end.

(** Greedy repetition of [body]: after an iteration that took characters
    another one is tried; an iteration that took none ends the repetition
    and the rest of the pattern is tried from there, as [re] does.  [n],
    the characters left, bounds the iterations. *)
Fixpoint repeat_greedy (body : nat -> (nat -> option nat) -> option nat)
    (n : nat) (i : nat) (k : nat -> option nat) : option nat :=
  match n with
  | O => k i
  | S n' =>
      match body i (fun j => if i <? j then repeat_greedy body n' j k
                             else k j) with
      | Some e => Some e
      | None => k i
      end
  end.

(** [match_at r i k]: match [r] at offset [i], then go on with [k] from
    the offset reached; the end of the whole match, or [None]. *)
Fixpoint match_at (r : regex) (i : nat)
    (k : nat -> option nat) : option nat :=
  match r with
  | Empty => k i
  | Lit c => one (Ascii.eqb c) i k
  | Any => one (fun c => DOTALL fl || negb (Ascii.eqb c newline)) i k
  | CharSet negate ranges =>
      one (fun c => xorb negate (existsb (in_range c) ranges)) i k
  | Bol => if at_bol i then k i else None
  | Eol => if at_eol i then k i else None
  | Seq r1 r2 => match_at r1 i (fun j => match_at r2 j k)
  | Alt r1 r2 =>
      match match_at r1 i k with
      | Some e => Some e
      | None => match_at r2 i k
      end
  | Star r' => repeat_greedy (match_at r') (String.length T - i) i k
  end.

(** The leftmost match among the [n] offsets from [i] on. *)
Fixpoint scan (r : regex) (n : nat) (i : nat) : option (nat * nat) :=
  match n with
  | O => None
  | S n' =>
      match match_at r i Some with
      | Some e => Some (i, e)
      | None => scan r n' (S i)
      end
  end.

(** What a matcher is bound to: it goes on from an offset of the text at
    or after the one it started at. *)
Definition advances (body : nat -> (nat -> option nat) -> option nat) : Prop :=
  forall i k e, (i <= String.length T)%nat -> body i k = Some e ->
    exists j, (i <= j <= String.length T)%nat /\ k j = Some e.

End Matcher.

(** [re.compile(pattern, flags)], the pattern given parsed.  [search]
    clamps a [pos] beyond the end of the string to the end, as [re] does,
    and tries every offset from there to the end of the string. *)
Definition re_compile (r : regex) (fl : re_flags) : SRE_Pattern :=
  {| search := fun T pos =>
       let start := Nat.min pos (String.length T) in
       scan fl T r (S (String.length T - start)) start |}.

(** ** [_find_text] *)

Section FindText.

Variables (source_text : string) (pick_pos : nat) (word_re : SRE_Pattern).

(** The variables of the loop: [pos], [match_start], [match_end]. *)
Definition locals : Type := nat * nat * nat.

(** One evaluation of the loop test and, when it holds, of the loop body:
    [inl] is what [_find_text] returns when the loop is left here, [inr]
    the variables for the next iteration. *)
Definition iteration (st : locals) : (bool * nat * nat) + locals :=
  let '(pos, match_start, match_end) := st in
  if pos =? String.length source_text then
    inl (false, match_start, match_end)
  else
    match search word_re source_text pos with
    | None => inl (false, match_start, match_end)
    | Some (match_start, match_end) =>
        if (match_start <=? pick_pos) && (pick_pos <? match_end) then
          inl (true, match_start, match_end)
        else if pick_pos <? match_start then
          inl (false, match_start, match_end)
        else
          let pos := if pos <? match_start then match_start else pos in
          inr (pos + 1, match_start, match_end)
    end.

(** The [while] loop, run for at most [fuel] iterations; [None] when it
    is still running after them. *)
Fixpoint while (fuel : nat) (st : locals) : option (bool * nat * nat) :=
  match fuel with
  | O => None
  | S fuel' =>
      match iteration st with
      | inl result => Some result
      | inr st' => while fuel' st'
      end
  end.

(** [found, match_start, match_end] start as [False, 0, 0] and [pos]
    as 0. *)
Definition _find_text (fuel : nat) : option (bool * nat * nat) :=
  while fuel (0, 0, 0).

(** The variables after [n] iterations, when the loop runs that long. *)
Fixpoint locals_after (n : nat) (st : locals) : option locals :=
  match n with
  | O => Some st
  | S n' =>
      match iteration st with
      | inl _ => None
      | inr st' => locals_after n' st'
      end
  end.

End FindText.

(** ** Characters and bytes

    The text of a buffer is a sequence of characters, and the iterators
    of GTK count characters.  What Python 2 gets from [get_slice] is a
    [str] of the UTF-8 bytes of the text: [len] and [re] count bytes.
    The characters are modelled up to code point 255; those from 128 on
    take two bytes. *)
Definition utf8_char (c : ascii) : string :=
  let n := nat_of_ascii c in
  if n <? 128 then String c EmptyString
  else String (ascii_of_nat (192 + n / 64))
         (String (ascii_of_nat (128 + n mod 64)) EmptyString).

Fixpoint utf8 (T : string) : string :=
  match T with
  | EmptyString => EmptyString
  | String c T' => (utf8_char c ++ utf8 T')%string
  end.

(** A text of characters below 128, which is its own UTF-8 encoding. *)
Fixpoint is_ascii (T : string) : bool :=
  match T with
  | EmptyString => true
  | String c T' => (nat_of_ascii c <? 128) && is_ascii T'
  end.

(** [iter.set_offset(char_offset)] in a buffer of text [T]: an offset
    beyond the last character gives the end of the buffer. *)
Definition set_offset (T : string) (char_offset : nat) : nat :=
  Nat.min char_offset (String.length T).

(** ** Selection in the whole document *)

(** The characters of the buffer and the range selected, in characters. *)
Record document : Type := {
  get_text : string;
  get_selection : option (nat * nat)
}.

(** [_select_multiple_line_regex]: the text searched is the bytes of the
    whole document, [pick_pos] is the character offset of the click from
    [get_offset], and the offsets of a span found are given to
    [set_offset] for the range to select. *)
Definition _select_multiple_line_regex (fuel : nat) (doc : document)
    (click_offset : nat) (word_re : SRE_Pattern) : option (bool * document) :=
  match _find_text (utf8 (get_text doc)) click_offset word_re fuel with
  | None => None
  | Some (found, match_start, match_end) =>
      Some (found,
            if found
            then {| get_text := get_text doc;
                    get_selection :=
                      Some (set_offset (get_text doc) match_start,
                            set_offset (get_text doc) match_end) |}
            else doc)
  end.

(** ** The patterns and texts of the examples *)

Definition no_flags : re_flags := {| MULTILINE := false; DOTALL := false |}.
Definition re_M : re_flags := {| MULTILINE := true; DOTALL := false |}.

(** ['^.*\\n'] with [re.M], the selection "Line+" of the plugin. *)
Definition line_plus : SRE_Pattern :=
  re_compile (Seq Bol (Seq (Star Any) (Lit newline))) re_M.

Definition two_lines : string :=
  ("line one" ++ String newline ("line two" ++ String newline ""))%string.

(** ['$'] *)
Definition end_of_line : SRE_Pattern := re_compile Eol no_flags.

(** ['[ \t]*$'], white space at the end of a line. *)
Definition trailing_blanks : SRE_Pattern :=
  re_compile (Seq (Star (CharSet false [(" ", " "); ("009", "009")]%char)) Eol)
             no_flags.

(** ['[a-zA-Z_]+'] *)
Definition name_chars : SRE_Pattern :=
  re_compile (Plus (CharSet false [("a", "z"); ("A", "Z"); ("_", "_")]%char))
             no_flags.

(** ** The text buffer

    [GtkTextBuffer] and [GtkTextIter] are GTK's, not the plugin's.  An
    iterator is modelled by its character offset in the text of its
    buffer, and the lines of the text are taken to end with a newline
    character. *)

(** [iter.ends_line()]: at a newline, or at the end of the buffer. *)
Definition ends_line (T : string) (off : nat) : bool :=
  match String.get off T with
  | Some c => Ascii.eqb c newline
  | None => true
  end.

(** The first offset that ends a line among the [n] offsets from [off]
    on, and [off + n] when there is none. *)
Fixpoint line_end_from (T : string) (n off : nat) : nat :=
  match n with
  | O => off
  | S n' => if ends_line T off then off else line_end_from T n' (S off)
  end.

(** [iter.forward_to_line_end()]: to the end of the line of the iterator
    and, from the end of a line, to the end of the next line; the end of
    the buffer is not left. *)
Definition forward_to_line_end (T : string) (off : nat) : nat :=
  let from := if ends_line T off then Nat.min (S off) (String.length T)
              else off in
  line_end_from T (String.length T - from) from.

(** [iter.set_line_offset(0)]: to the start of the line of the iterator,
    which is the offset after the last newline before it. *)
Fixpoint line_start (T : string) (off : nat) : nat :=
  match off with
  | O => O
  | S off' => match String.get off' T with
              | Some c => if Ascii.eqb c newline then off
                          else line_start T off'
              | None => line_start T off'
              end
  end.

(** [_get_line_iter_pair]: the start and the end of the line of the
    iterator. *)
Definition _get_line_iter_pair (T : string) (a_text_iter : nat) : nat * nat :=
  let left_iter := line_start T a_text_iter in
  let right_iter := if negb (ends_line T a_text_iter)
                    then forward_to_line_end T a_text_iter
                    else a_text_iter in
  (left_iter, right_iter).

(** [iter.set_line_offset(char_on_line)] for an iterator at [it]: the
    offset is counted from the start of the line of [it]; it may be the
    number of characters of the line with its newline, which gives the
    start of the next line, or the end of the buffer on the last line.  A
    larger one is refused by GTK and the iterator stays where it is. *)
Definition set_line_offset (T : string) (it : nat) (char_on_line : nat) : nat :=
  let '(line_start, line_end) := _get_line_iter_pair T it in
  let chars_in_line :=
    line_end - line_start + (if line_end <? String.length T then 1 else 0) in
  if char_on_line <=? chars_in_line then line_start + char_on_line else it.

(** ** Selection in the line of the click *)

(** [_select_single_line_regex]: the text searched is the bytes of the
    line of the click without its newline, [pick_pos] is the character
    offset of the click in that line from [get_line_offset], and the
    offsets of a span found are given to [set_line_offset] on copies of
    the iterator of the click for the range to select. *)
Definition _select_single_line_regex (fuel : nat) (doc : document)
    (click_iter : nat) (word_re : SRE_Pattern) : option (bool * document) :=
  let '(source_start_iter, source_end_iter) :=
    _get_line_iter_pair (get_text doc) click_iter in
  let pick_pos := click_iter - source_start_iter in
  let source_text :=
    utf8 (substring source_start_iter (source_end_iter - source_start_iter)
                    (get_text doc)) in
  match _find_text source_text pick_pos word_re fuel with
  | None => None
  | Some (found, match_start, match_end) =>
      Some (found,
            if found
            then {| get_text := get_text doc;
                    get_selection :=
                      Some (set_line_offset (get_text doc) click_iter
                                            match_start,
                            set_line_offset (get_text doc) click_iter
                                            match_end) |}
            else doc)
  end.

(** ** From a press to a selection *)

(** A [SelectionOp] as the module builds and reads it; the pattern is
    given parsed and the flags within the fragment modelled. *)
Record SelectionOp : Type := {
  name : string;
  pattern : regex;
  flags : re_flags;
  preserved : bool
}.

(** The button press event: the button, the event type and, for
    [_get_click_iter], the offset of the buffer position under the
    pointer. *)
Record EventButton : Type := {
  button : nat;
  type : press;
  pointer : nat
}.

Section Selection.

(** [self._plugin.conf.get_op(click=...)] and
    [self._plugin.conf.get_op(op_name=...)] of [click_config_data], and the
    offset of the insert mark that [_get_insert_iter] reads. *)
Variable get_op_of_click : nat -> SelectionOp.
Variable get_op_of_name : string -> SelectionOp.
Variable _get_insert_iter : document -> nat.

(** [_select_regex]: [action_or_op] is a [SelectionOp] or an action of the
    menu, which is looked up by its name. *)
Definition _select_regex (fuel : nat) (action_or_op : SelectionOp + string)
    (click_iter : option nat) (doc : document) : option (bool * document) :=
  let op := match action_or_op with
            | inl op => op
            | inr op_name => get_op_of_name op_name
            end in
  let char_spec := pattern op in
  let flags := flags op in
  let click_iter := match click_iter with
                    | Some it => it
                    | None => _get_insert_iter doc
                    end in
  let word_re := re_compile char_spec flags in
  let multiline := MULTILINE flags in
  if multiline then _select_multiple_line_regex fuel doc click_iter word_re
  else _select_single_line_regex fuel doc click_iter word_re.

Definition _make_assigned_selection (fuel : nat) (click : nat)
    (click_iter : nat) (doc : document) : option (bool * document) :=
  let op := get_op_of_click click in
  if negb (String.eqb (name op) "None") then
    _select_regex fuel (inl op) (Some click_iter) doc
  else Some (false, doc).

(** [_handle_button_press], with the time [now] that it reads: an
    exception of a handler, or [None] while the scanning loop is still
    running after [fuel] iterations, or [handled] with the helper and the
    document left. *)
Definition _handle_button_press (fuel : nat) (now : Q) (event : EventButton)
    (h : helper) (doc : document) : exn + option (bool * helper * document) :=
  if button event =? 1 then
    match handlers_by_type (type event) now h with
    | inl e => inl e
    | inr ((handled, click), h') =>
        match click with
        | Some (S _ as click) =>
            match _make_assigned_selection fuel click (pointer event) doc with
            | None => inr None
            | Some (handled, doc') => inr (Some (handled, h', doc'))
            end
        | _ => inr (Some (handled, h', doc))
        end
    end
  else inr (Some (false, h, doc)).

End Selection.

(** ** What a selection made looks like *)

(** [doc'] is [doc] with a range selected that lies in the text and
    contains the offset [click]. *)
Definition selected_around (click : nat) (doc doc' : document) : Prop :=
  get_text doc' = get_text doc /\
  exists a b, get_selection doc' = Some (a, b) /\
              a <= click < b /\ b <= String.length (get_text doc).

(** The range selected in [doc'] lies in the line of [click] in [doc],
    without the newline that ends the line. *)
Definition selected_in_line (click : nat) (doc doc' : document) : Prop :=
  exists a b, get_selection doc' = Some (a, b) /\
              (_get_line_iter_pair (get_text doc) click).1 <= a /\
              b <= (_get_line_iter_pair (get_text doc) click).2 /\
              forall i, a <= i < b ->
                        String.get i (get_text doc) <> Some newline.

(** ** Patterns that cannot stop the scan

    [consumes r]: every match of [r] takes at least one character;
    [always r]: [r] matches at every offset. *)
Fixpoint consumes (r : regex) : bool :=
  match r with
  | Lit _ | Any | CharSet _ _ => true
  | Empty | Bol | Eol | Star _ => false
  | Seq r1 r2 => consumes r1 || consumes r2
  | Alt r1 r2 => consumes r1 && consumes r2
  end.

Fixpoint always (r : regex) : bool :=
  match r with
  | Empty | Star _ => true
  | Lit _ | Any | CharSet _ _ | Bol | Eol => false
  | Seq r1 r2 => always r1 && always r2
  | Alt r1 r2 => always r1 || always r2
  end.

(** ['[_a-zA-Z][_a-zA-Z0-9]*'], the selection "Python name". *)
Definition python_name : regex :=
  Seq (CharSet false [("_", "_"); ("a", "z"); ("A", "Z")]%char)
      (Star (CharSet false [("_", "_"); ("a", "z"); ("A", "Z"); ("0", "9")]%char)).

(** ** The level each event type stands for *)

(** The level a handler emits when it does not take the press for part of
    a longer run: the one its [click = ...] of the last branch sets. *)
Definition own_level (ty : press) : nat :=
  match ty with
  | BUTTON_PRESS => 1
  | _2BUTTON_PRESS => 2
  | _3BUTTON_PRESS => 3
  end.

(** The results a handler can return. *)
Definition is_result (r : bool * option nat) : Prop :=
  r = (true, None) \/ exists L, 1 <= L <= 5 /\ r = (false, Some L).

(** ** The mouse handlers of the views

    [_mouse_handler_ids_per_view] maps each view to the id of the handler
    connected to it.  Views are told apart by a number.  Of GTK only the
    calls made are kept, in order: [view.connect(...)] with the id it
    returned and [view.disconnect(id)]. *)
Inductive gtk_call : Type :=
| Connect (view id : nat)
| Disconnect (view id : nat).

Record mouse_handlers : Type := {
  _mouse_handler_ids_per_view : gmap nat nat;
  gtk_calls : list gtk_call
}.

(** [__init__]: [self._mouse_handler_ids_per_view = {}]. *)
Definition no_mouse_handlers : mouse_handlers :=
  {| _mouse_handler_ids_per_view := ∅; gtk_calls := [] |}.

(** [_connect_mouse_handler]; [id] is what [view.connect] returns. *)
Definition _connect_mouse_handler (view id : nat)
    (st : mouse_handlers) : mouse_handlers :=
  {| _mouse_handler_ids_per_view :=
       <[view := id]> (_mouse_handler_ids_per_view st);
     gtk_calls := gtk_calls st ++ [Connect view id] |}.

(** [_connect_view]; [id] is what [view.connect] returns if it is
    called. *)
Definition _connect_view (view id : nat)
    (st : mouse_handlers) : mouse_handlers :=
  match _mouse_handler_ids_per_view st !! view with
  | None => _connect_mouse_handler view id st
  | Some _ => st
  end.

(** The body of the loop of [_disconnect_mouse_handlers] for the views of
    [keys]: [pop] raises [KeyError], here [None], for a view that is not
    in the dictionary. *)
Fixpoint disconnect_each (keys : list nat)
    (st : mouse_handlers) : option mouse_handlers :=
  match keys with
  | [] => Some st
  | view :: keys' =>
      match _mouse_handler_ids_per_view st !! view with
      | None => None
      | Some id =>
          disconnect_each keys'
            {| _mouse_handler_ids_per_view :=
                 delete view (_mouse_handler_ids_per_view st);
               gtk_calls := gtk_calls st ++ [Disconnect view id] |}
      end
  end.

(** [_disconnect_mouse_handlers]: [keys()] is a list made before the loop
    starts, in some order of the dictionary. *)
Definition _disconnect_mouse_handlers
    (st : mouse_handlers) : option mouse_handlers :=
  disconnect_each (map_to_list (_mouse_handler_ids_per_view st)).*1 st.

(** The handlers connected and those disconnected by a list of calls, as
    pairs of the view and the id. *)
Definition connected (calls : list gtk_call) : list (nat * nat) :=
  omap (fun c => match c with
                 | Connect view id => Some (view, id)
                 | Disconnect _ _ => None
                 end) calls.

Definition disconnected (calls : list gtk_call) : list (nat * nat) :=
  omap (fun c => match c with
                 | Disconnect view id => Some (view, id)
                 | Connect _ _ => None
                 end) calls.

(** The views of a window connected one after the other, each with the id
    that [view.connect] returns for it if it is called. *)
Definition connect_views (views : list (nat * nat))
    (st : mouse_handlers) : mouse_handlers :=
  foldl (fun st view_id => _connect_view view_id.1 view_id.2 st) st views.

(** * Properties *)

Open Scope Q_scope.

(** ** Comparison of rationals as a boolean *)

Lemma Qltb_true (x y : Q) : x < y -> Qltb x y = true.
Proof.
  intros H. unfold Qltb. destruct (Qlt_le_dec x y) as [_|Hle]; [reflexivity|].
  exfalso. exact (Qlt_not_le _ _ H Hle).
Qed.

Lemma Qltb_false (x y : Q) : ~ x < y -> Qltb x y = false.
Proof.
  intros H. unfold Qltb. destruct (Qlt_le_dec x y) as [Hlt|_]; [|reflexivity].
  contradiction.
Qed.

Lemma Qltb_spec (x y : Q) : Qltb x y = true <-> x < y.
Proof.
  split; [|apply Qltb_true].
  unfold Qltb. destruct (Qlt_le_dec x y); [trivial|discriminate].
Qed.

(** ** Well-formed click records *)

Lemma well_formed_inv (h : helper) :
  well_formed h ->
  exists v0 t1 t2 t3 t4 t5,
    h = Helper [v0; PyNum t1; PyNum t2; PyNum t3; PyNum t4; PyNum t5]
               (_double_click_time h).
Proof.
  destruct h as [l d]. unfold well_formed, last_click. simpl.
  intros [Hlen Hnum].
  do 7 (destruct l as [|? l]; try discriminate Hlen). clear Hlen.
  pose proof (Hnum 1%nat ltac:(lia)) as H1.
  pose proof (Hnum 2%nat ltac:(lia)) as H2.
  pose proof (Hnum 3%nat ltac:(lia)) as H3.
  pose proof (Hnum 4%nat ltac:(lia)) as H4.
  pose proof (Hnum 5%nat ltac:(lia)) as H5.
  simpl in *.
  repeat match goal with
         | H : is_Some (match ?v with PyNone => _ | PyNum _ => _ end) |- _ =>
             destruct v; [destruct H; discriminate|clear H]
         end.
  eauto 10.
Qed.

Lemma well_formed_intro v0 t1 t2 t3 t4 t5 d :
  well_formed (Helper [v0; PyNum t1; PyNum t2; PyNum t3; PyNum t4; PyNum t5] d).
Proof.
  split; [reflexivity|].
  intros L HL. unfold last_click. simpl.
  destruct L as [|[|[|[|[|[|L]]]]]]; simpl; try lia; eauto.
Qed.

Lemma init_well_formed d : well_formed (init d).
Proof. apply well_formed_intro. Qed.

Ltac explicit h :=
  let v0 := fresh "v0" in
  let t1 := fresh "t1" in let t2 := fresh "t2" in let t3 := fresh "t3" in
  let t4 := fresh "t4" in let t5 := fresh "t5" in
  let E := fresh "E" in
  match goal with
  | W : well_formed h |- _ =>
      destruct (well_formed_inv h W) as (v0 & t1 & t2 & t3 & t4 & t5 & E);
      destruct h as [? d]; simpl in E; injection E as ->; simpl in *
  end.

(** ** The handlers as decision lists over an explicit record *)

Section Equations.

Variables (v0 : pyval) (t1 t2 t3 t4 t5 d now : Q).

Let h := Helper [v0; PyNum t1; PyNum t2; PyNum t3; PyNum t4; PyNum t5] d.

Lemma within_eq L t :
  last_click h L = Some t -> within now L h = inr (Qltb (now - t) d, h).
Proof.
  unfold last_click, within, bind, getitem.
  destruct (_time_of_last_click h !! L) as [[|q]|]; try discriminate.
  intros [= ->]. reflexivity.
Qed.

Lemma _handle_1button_press_eq :
  _handle_1button_press now h =
    if Qltb (now - t4) d then inr ((false, Some 5%nat), record 5 now h)
    else if Qltb (now - t3) d then inr ((false, Some 4%nat), record 4 now h)
    else if Qltb (now - t2) d then inr ((true, None), h)
    else if Qltb (now - t1) d then inr ((true, None), h)
    else inr ((false, Some 1%nat), record 1 now h).
Proof.
  unfold _handle_1button_press, bind.
  rewrite (within_eq 4 t4 eq_refl). destruct (Qltb (now - t4) d); [reflexivity|].
  rewrite (within_eq 3 t3 eq_refl). destruct (Qltb (now - t3) d); [reflexivity|].
  rewrite (within_eq 2 t2 eq_refl). destruct (Qltb (now - t2) d); [reflexivity|].
  rewrite (within_eq 1 t1 eq_refl). destruct (Qltb (now - t1) d); reflexivity.
Qed.

Lemma _handle_2button_press_eq :
  _handle_2button_press now h =
    if Qltb (now - t4) d then inr ((true, None), h)
    else inr ((false, Some 2%nat), record 2 now h).
Proof.
  unfold _handle_2button_press, bind.
  rewrite (within_eq 4 t4 eq_refl). destruct (Qltb (now - t4) d); reflexivity.
Qed.

Lemma _handle_3button_press_eq :
  _handle_3button_press now h =
    if Qltb (now - t5) d then inr ((true, None), h)
    else inr ((false, Some 3%nat), record 3 now h).
Proof.
  unfold _handle_3button_press, bind.
  rewrite (within_eq 5 t5 eq_refl). destruct (Qltb (now - t5) d); reflexivity.
Qed.

End Equations.

(** The handlers keep the record well formed, so every record reached from
    [init] is. *)
Lemma handlers_keep_well_formed ty now h r h' :
  well_formed h -> handlers_by_type ty now h = inr (r, h') -> well_formed h'.
Proof.
  intros W. explicit h. destruct ty; simpl.
  - rewrite _handle_1button_press_eq.
    repeat match goal with |- context [if ?b then _ else _] => destruct b end;
      intros [= <- <-]; apply well_formed_intro.
  - rewrite _handle_2button_press_eq.
    repeat match goal with |- context [if ?b then _ else _] => destruct b end;
      intros [= <- <-]; apply well_formed_intro.
  - rewrite _handle_3button_press_eq.
    repeat match goal with |- context [if ?b then _ else _] => destruct b end;
      intros [= <- <-]; apply well_formed_intro.
Qed.

(** ** The single-press entry point *)

(** C2: on a well-formed record the single-press handler tries its rules in
    order: within the interval of the level-4 time it records slot 5 and
    emits 5; else within that of the level-3 time it records slot 4 and
    emits 4; else within that of the level-2 time, or else of the level-1
    time, it suppresses and emits nothing; else it records slot 1 and
    emits 1. *)
Theorem single_press_rules (h : helper) (now t1 t2 t3 t4 : Q) :
  well_formed h ->
  last_click h 1 = Some t1 -> last_click h 2 = Some t2 ->
  last_click h 3 = Some t3 -> last_click h 4 = Some t4 ->
  let d := _double_click_time h in
  (now - t4 < d ->
     _handle_1button_press now h = inr ((false, Some 5%nat), record 5 now h)) /\
  (~ now - t4 < d -> now - t3 < d ->
     _handle_1button_press now h = inr ((false, Some 4%nat), record 4 now h)) /\
  (~ now - t4 < d -> ~ now - t3 < d -> now - t2 < d ->
     _handle_1button_press now h = inr ((true, None), h)) /\
  (~ now - t4 < d -> ~ now - t3 < d -> ~ now - t2 < d -> now - t1 < d ->
     _handle_1button_press now h = inr ((true, None), h)) /\
  (~ now - t4 < d -> ~ now - t3 < d -> ~ now - t2 < d -> ~ now - t1 < d ->
     _handle_1button_press now h = inr ((false, Some 1%nat), record 1 now h)).
Proof.
  intros W E1 E2 E3 E4. explicit h.
  unfold last_click in E1, E2, E3, E4. simpl in *.
  injection E1 as ->. injection E2 as ->. injection E3 as ->. injection E4 as ->.
  rewrite _handle_1button_press_eq.
  repeat split; intros;
    repeat match goal with
           | H : ?x < ?y |- _ => rewrite (Qltb_true x y H); clear H
           | H : ~ ?x < ?y |- _ => rewrite (Qltb_false x y H); clear H
           end; reflexivity.
Qed.

Lemma single_press_rules_witness :
  _handle_1button_press 7 (init 0.4) =
    inr ((false, Some 1%nat), record 1 7 (init 0.4)).
Proof.
  apply (single_press_rules (init 0.4) 7 0 0 0 0 (init_well_formed 0.4)
           eq_refl eq_refl eq_refl eq_refl);
    simpl; intros H; vm_compute in H; discriminate H.
Defined.

(** ** The triple-press entry point *)

(** C6: the triple-press handler suppresses, emitting nothing and leaving
    the record alone, when [now] is within the interval of the level-5
    time, and in every other case records slot 3 and emits 3; so it
    suppresses exactly when [now] is within that interval. *)
Theorem triple_press_rules (h : helper) (now t5 : Q) :
  well_formed h ->
  last_click h 5 = Some t5 ->
  let d := _double_click_time h in
  (now - t5 < d -> _handle_3button_press now h = inr ((true, None), h)) /\
  (~ now - t5 < d ->
     _handle_3button_press now h = inr ((false, Some 3%nat), record 3 now h)) /\
  (forall r h', _handle_3button_press now h = inr (r, h') ->
                (r = (true, None) <-> now - t5 < d)).
Proof.
  intros W E5. explicit h. unfold last_click in E5. simpl in *.
  injection E5 as ->. rewrite _handle_3button_press_eq.
  destruct (Qltb (now - t5) d) eqn:Hb.
  - apply Qltb_spec in Hb. repeat split; try tauto. congruence.
  - assert (Hn : ~ now - t5 < d)
      by (intros Hlt; apply Qltb_spec in Hlt; congruence).
    repeat split; try tauto; try congruence.
Qed.

Lemma triple_press_rules_witness :
  _handle_3button_press 7 (init 0.4) =
    inr ((false, Some 3%nat), record 3 7 (init 0.4)).
Proof.
  apply (triple_press_rules (init 0.4) 7 0 (init_well_formed 0.4) eq_refl).
  simpl; intros H; vm_compute in H; discriminate H.
Defined.

(** ** A clock that went backward *)

Lemma skewed_backward : clock_went_backward skewed 5.
Proof.
  intros L t HL. unfold last_click. simpl.
  destruct L as [|[|[|[|[|[|L]]]]]]; simpl; try lia;
    intros [= <-]; reflexivity.
Qed.

(** C4, as stated, fails: with every recorded time at 10 and [now = 5] the
    record is well formed and [now] is earlier than every recorded time,
    yet the checks do not all fail and the single press is neither a fresh
    single click nor suppressed: it is classified as level 5. *)
Lemma clock_went_backward_counterexample :
  well_formed skewed /\ clock_went_backward skewed 5 /\
  _handle_1button_press 5 skewed = inr ((false, Some 5%nat), record 5 5 skewed) /\
  ~ all_checks_fail 5 skewed /\ ~ fresh_or_suppressed 5 skewed.
Proof.
  split; [apply well_formed_intro|]. split; [|split; [|split]].
  - apply skewed_backward.
  - reflexivity.
  - intros H. specialize (H 4%nat ltac:(lia)). vm_compute in H. discriminate H.
  - intros (r & h' & Hrun & [-> | ->]); vm_compute in Hrun; discriminate Hrun.
Qed.

Lemma within_last_click (h : helper) (now : Q) (L : nat) (t : Q) :
  last_click h L = Some t ->
  within now L h = inr (Qltb (now - t) (_double_click_time h), h).
Proof.
  unfold last_click, within, bind, getitem.
  destruct (_time_of_last_click h !! L) as [[|q]|]; try discriminate.
  intros [= ->]. reflexivity.
Qed.

Lemma single_press_last_click (h : helper) (now t1 t2 t3 t4 : Q) :
  well_formed h ->
  last_click h 1 = Some t1 -> last_click h 2 = Some t2 ->
  last_click h 3 = Some t3 -> last_click h 4 = Some t4 ->
  _handle_1button_press now h =
    if Qltb (now - t4) (_double_click_time h)
    then inr ((false, Some 5%nat), record 5 now h)
    else if Qltb (now - t3) (_double_click_time h)
    then inr ((false, Some 4%nat), record 4 now h)
    else if Qltb (now - t2) (_double_click_time h) then inr ((true, None), h)
    else if Qltb (now - t1) (_double_click_time h) then inr ((true, None), h)
    else inr ((false, Some 1%nat), record 1 now h).
Proof.
  intros W E1 E2 E3 E4. explicit h.
  unfold last_click in E1, E2, E3, E4. simpl in *.
  injection E1 as ->. injection E2 as ->. injection E3 as ->.
  injection E4 as ->. apply _handle_1button_press_eq.
Qed.

(** C4, amended: for an interval that is not negative and a [now] that is
    earlier than every time recorded so far, the check of a slot succeeds
    when the slot holds a recorded time, and for a slot never written
    exactly when [now] is less than the interval.  So the single press is
    not always a fresh single click or suppressed: it is classified as
    level 5 when the check of slot 4 succeeds, else as level 4 when slot 3
    holds a recorded time, else suppressed when slot 2 or slot 1 holds one,
    and it is a fresh single click, level 1, only when no slot holds a
    recorded time and [now] is at least the interval.  No exception is
    raised. *)
Theorem clock_went_backward_rules (h : helper) (now t1 t2 t3 t4 : Q) :
  well_formed h ->
  0 <= _double_click_time h ->
  earlier_than_recorded h now ->
  last_click h 1 = Some t1 -> last_click h 2 = Some t2 ->
  last_click h 3 = Some t3 -> last_click h 4 = Some t4 ->
  let d := _double_click_time h in
  (forall L t, (1 <= L <= 5)%nat -> last_click h L = Some t ->
     (now < t \/ now < d -> within now L h = inr (true, h)) /\
     (~ (now < t \/ now < d) -> within now L h = inr (false, h))) /\
  (now < t4 \/ now < d ->
     _handle_1button_press now h = inr ((false, Some 5%nat), record 5 now h)) /\
  (~ (now < t4 \/ now < d) -> now < t3 ->
     _handle_1button_press now h = inr ((false, Some 4%nat), record 4 now h)) /\
  (~ (now < t4 \/ now < d) -> ~ now < t3 -> now < t2 \/ now < t1 ->
     _handle_1button_press now h = inr ((true, None), h)) /\
  (~ (now < t4 \/ now < d) -> ~ now < t3 -> ~ now < t2 -> ~ now < t1 ->
     _handle_1button_press now h = inr ((false, Some 1%nat), record 1 now h)).
Proof.
  intros W Hd Hearlier E1 E2 E3 E4 d.
  assert (Hcheck : forall L t, (1 <= L <= 5)%nat -> last_click h L = Some t ->
            Qltb (now - t) d = true <-> (now < t \/ now < d)).
  { intros L t HL E. rewrite Qltb_spec. subst d.
    destruct (Hearlier L t HL E) as [Hz | Hlt].
    - split.
      + intros H. right. lra.
      + intros [H | H]; lra.
    - split; [intros _; left; exact Hlt | intros _; lra]. }
  assert (Hyes : forall L t, (1 <= L <= 5)%nat -> last_click h L = Some t ->
            now < t \/ now < d -> Qltb (now - t) d = true).
  { intros L t HL E H. apply (Hcheck L t HL E). exact H. }
  assert (Hno : forall L t, (1 <= L <= 5)%nat -> last_click h L = Some t ->
            ~ (now < t \/ now < d) -> Qltb (now - t) d = false).
  { intros L t HL E H. destruct (Qltb (now - t) d) eqn:Hb; [|reflexivity].
    exfalso. apply H. apply (Hcheck L t HL E). exact Hb. }
  clear Hcheck Hearlier.
  pose proof (Hyes 4%nat t4 ltac:(lia) E4) as Y4.
  pose proof (Hno 4%nat t4 ltac:(lia) E4) as N4.
  pose proof (Hyes 3%nat t3 ltac:(lia) E3) as Y3.
  pose proof (Hno 3%nat t3 ltac:(lia) E3) as N3.
  pose proof (Hyes 2%nat t2 ltac:(lia) E2) as Y2.
  pose proof (Hno 2%nat t2 ltac:(lia) E2) as N2.
  pose proof (Hyes 1%nat t1 ltac:(lia) E1) as Y1.
  pose proof (Hno 1%nat t1 ltac:(lia) E1) as N1.
  split.
  { intros L t HL E. rewrite (within_last_click h now L t E). fold d.
    split; intros H;
      [rewrite (Hyes L t HL E H) | rewrite (Hno L t HL E H)]; reflexivity. }
  clear Hyes Hno.
  rewrite (single_press_last_click h now t1 t2 t3 t4 W E1 E2 E3 E4). fold d.
  split; [intros H; rewrite (Y4 H); reflexivity|].
  split; [intros H4 H3; rewrite (N4 H4), (Y3 (or_introl H3)); reflexivity|].
  assert (Hd' : ~ (now < t4 \/ now < d) -> ~ now < d) by tauto.
  split.
  - intros H4 H3 H21. rewrite (N4 H4).
    rewrite N3 by (pose proof (Hd' H4); tauto).
    destruct H21 as [H2 | H1'].
    + rewrite (Y2 (or_introl H2)). reflexivity.
    + destruct (Qltb (now - t2) d); [reflexivity|].
      rewrite (Y1 (or_introl H1')). reflexivity.
  - intros H4 H3 H2 H1'. pose proof (Hd' H4).
    rewrite (N4 H4), N3, N2, N1 by tauto. reflexivity.
Qed.

Lemma clock_went_backward_rules_witness :
  _handle_1button_press 999 partly_written =
    inr ((false, Some 4%nat), record 4 999 partly_written).
Proof.
  apply (clock_went_backward_rules partly_written 999 1000 1000.1 1000.2 0
           (well_formed_intro _ _ _ _ _ _ _)).
  - simpl. vm_compute. discriminate.
  - intros L t HL. unfold last_click. simpl.
    destruct L as [|[|[|[|[|[|L]]]]]]; simpl; try lia; intros [= <-];
      first [left; reflexivity | right; reflexivity].
  - reflexivity.
  - reflexivity.
  - reflexivity.
  - reflexivity.
  - simpl. intros [H | H]; vm_compute in H; discriminate H.
  - reflexivity.
Defined.

(** ** The initial value of the slots *)

(** C5, as stated, fails: on the initial record with an interval of 0.4 a
    press at time 0.1 passes the check against slot 4, which still holds
    its initial 0, and is classified as level 5. *)
Lemma sentinel_counterexample :
  _time_of_last_click (init 0.4) !! 4%nat = Some (PyNum 0) /\
  within 0.1 4 (init 0.4) = inr (true, init 0.4) /\
  _handle_1button_press 0.1 (init 0.4) =
    inr ((false, Some 5%nat), record 5 0.1 (init 0.4)).
Proof. repeat split. Qed.

(** C5, amended: for every [now] that is at least the interval (as every
    [time.time()] reading is), the check against a slot still holding its
    initial 0 fails.  So in the single-press handler such a slot 4 never
    gives level 5 and such a slot 3 never gives level 4, with slots 1 and 2
    both such the press is not suppressed; with such a slot 4 the
    double-press handler emits 2, and with such a slot 5 the triple-press
    handler emits 3. *)
Theorem sentinel_outside_interval (h : helper) (now : Q) :
  well_formed h ->
  _double_click_time h <= now ->
  let untouched L := _time_of_last_click h !! L = Some (PyNum 0) in
  (forall L, (1 <= L <= 5)%nat -> untouched L ->
             within now L h = inr (false, h)) /\
  (untouched 4%nat -> forall r h',
     _handle_1button_press now h = inr (r, h') -> r.2 <> Some 5%nat) /\
  (untouched 3%nat -> forall r h',
     _handle_1button_press now h = inr (r, h') -> r.2 <> Some 4%nat) /\
  (untouched 2%nat -> untouched 1%nat -> forall r h',
     _handle_1button_press now h = inr (r, h') -> r <> (true, None)) /\
  (untouched 4%nat ->
     _handle_2button_press now h = inr ((false, Some 2%nat), record 2 now h)) /\
  (untouched 5%nat ->
     _handle_3button_press now h = inr ((false, Some 3%nat), record 3 now h)).
Proof.
  intros W Hd untouched.
  assert (Hout : Qltb (now - 0) (_double_click_time h) = false).
  { apply Qltb_false. intros Hlt. lra. }
  explicit h. subst untouched. simpl.
  split; [|split; [|split; [|split; [|split]]]].
  - intros L HL E.
    rewrite (within_eq _ _ _ _ _ _ _ _ L 0); [rewrite Hout; reflexivity|].
    unfold last_click. simpl. rewrite E. reflexivity.
  - intros [= ->] r h'. rewrite _handle_1button_press_eq, Hout.
    repeat match goal with |- context [if ?b then _ else _] => destruct b end;
      intros [= <- <-]; discriminate.
  - intros [= ->] r h'. rewrite _handle_1button_press_eq, Hout.
    repeat match goal with |- context [if ?b then _ else _] => destruct b end;
      intros [= <- <-]; discriminate.
  - intros [= ->] [= ->] r h'. rewrite _handle_1button_press_eq, !Hout.
    repeat match goal with |- context [if ?b then _ else _] => destruct b end;
      intros [= <- <-]; discriminate.
  - intros [= ->]. rewrite _handle_2button_press_eq, Hout. reflexivity.
  - intros [= ->]. rewrite _handle_3button_press_eq, Hout. reflexivity.
Qed.

Lemma sentinel_outside_interval_witness :
  within 7 4 (init 0.4) = inr (false, init 0.4).
Proof.
  apply (sentinel_outside_interval (init 0.4) 7 (init_well_formed 0.4)).
  - simpl. vm_compute. discriminate.
  - lia.
  - reflexivity.
Defined.

(** ** A stream of presses *)

(** C7, as stated, fails: from the initial record with an interval of 0.4,
    a single press at 0, a double press at 0.1 and a single press at 0.15
    give level 5, suppression and level 5, because every slot starts at 0
    and time 0 is within the interval of it. *)
Lemma single_double_single_counterexample :
  presses [(BUTTON_PRESS, 0); (_2BUTTON_PRESS, 0.1); (BUTTON_PRESS, 0.15)]
          (init 0.4) =
  inr ([(false, Some 5%nat); (true, None); (false, Some 5%nat)],
       record 5 0.15 (init 0.4)).
Proof. reflexivity. Qed.

(** C7, amended: from the initial record with an interval of 0.4 and for
    every starting time [t] of at least 0.4, a single press at [t], a
    double press at [t + 0.1] and a single press at [t + 0.15] give level
    1, level 2 and suppression, in this order. *)
Theorem single_double_single (t : Q) :
  0.4 <= t ->
  presses [(BUTTON_PRESS, t); (_2BUTTON_PRESS, t + 0.1);
           (BUTTON_PRESS, t + 0.15)] (init 0.4) =
  inr ([(false, Some 1%nat); (false, Some 2%nat); (true, None)],
       record 2 (t + 0.1) (record 1 t (init 0.4))).
Proof.
  intros Ht. unfold presses, handlers_by_type, bind, init.
  rewrite _handle_1button_press_eq.
  rewrite (Qltb_false (t - 0) 0.4) by lra.
  unfold record. simpl.
  rewrite _handle_2button_press_eq.
  rewrite (Qltb_false (t + 0.1 - 0) 0.4) by lra.
  unfold record. simpl.
  rewrite _handle_1button_press_eq.
  rewrite (Qltb_false (t + 0.15 - 0) 0.4) by lra.
  rewrite (Qltb_true (t + 0.15 - (t + 0.1)) 0.4) by lra.
  reflexivity.
Qed.

Lemma single_double_single_witness :
  presses [(BUTTON_PRESS, 7); (_2BUTTON_PRESS, 7 + 0.1);
           (BUTTON_PRESS, 7 + 0.15)] (init 0.4) =
  inr ([(false, Some 1%nat); (false, Some 2%nat); (true, None)],
       record 2 (7 + 0.1) (record 1 7 (init 0.4))).
Proof.
  apply (single_double_single 7). vm_compute. discriminate.
Defined.

(** ** What a handler may change *)

(** C9: on a well-formed record each of the three handlers returns, and
    returns either suppression, with the helper unchanged, or a level [L]
    between 1 and 5, with entry [L] of the record set to [now] and every
    other entry, and the interval, unchanged. *)
Theorem handlers_frame (ty : press) (now : Q) (h : helper) :
  well_formed h ->
  exists r h',
    handlers_by_type ty now h = inr (r, h') /\
    (suppressed h r h' \/ exists L, emitted now h L r h').
Proof.
  intros W.
  assert (Hemit : forall L, (1 <= L <= 5)%nat ->
            exists r h', inr ((false, Some L), record L now h) =
                           (inr (r, h') : exn + (bool * option nat) * helper) /\
              (suppressed h r h' \/ exists L, emitted now h L r h')).
  { intros L HL. eexists _, _. split; [reflexivity|]. right. exists L.
    unfold emitted, record. cbn [_time_of_last_click _double_click_time].
    repeat split; try lia.
    - apply list_lookup_insert_eq. rewrite (proj1 W). lia.
    - intros j Hj. apply list_lookup_insert_ne. congruence. }
  assert (Hsupp : exists r h', inr ((true, None), h) =
                           (inr (r, h') : exn + (bool * option nat) * helper) /\
              (suppressed h r h' \/ exists L, emitted now h L r h')).
  { eexists _, _. split; [reflexivity|]. left. split; reflexivity. }
  revert Hemit Hsupp. explicit h. intros Hemit Hsupp.
  destruct ty; simpl.
  - rewrite _handle_1button_press_eq.
    repeat match goal with |- context [if ?b then _ else _] => destruct b end;
      first [exact Hsupp | apply Hemit; lia].
  - rewrite _handle_2button_press_eq.
    repeat match goal with |- context [if ?b then _ else _] => destruct b end;
      first [exact Hsupp | apply Hemit; lia].
  - rewrite _handle_3button_press_eq.
    repeat match goal with |- context [if ?b then _ else _] => destruct b end;
      first [exact Hsupp | apply Hemit; lia].
Qed.

Lemma handlers_frame_witness :
  exists r h', handlers_by_type _2BUTTON_PRESS 7 (init 0.4) = inr (r, h').
Proof.
  destruct (handlers_frame _2BUTTON_PRESS 7 (init 0.4) (init_well_formed 0.4))
    as (r & h' & Hrun & _).
  exists r, h'. exact Hrun.
Defined.

Close Scope Q_scope.

(** ** The matcher stays inside the text *)

Lemma get_Some_lt (T : string) (i : nat) (c : ascii) :
  String.get i T = Some c -> (i < String.length T)%nat.
Proof.
  revert i. induction T as [|a T IH]; intros [|i]; simpl;
    try discriminate; try lia.
  intros H. apply IH in H. lia.
Qed.

Section MatcherBounds.

Variables (fl : re_flags) (T : string).

Lemma one_advances ok : advances T (one T ok).
Proof.
  intros i k e Hi. unfold one.
  destruct (String.get i T) as [c|] eqn:Hget; [|discriminate].
  apply get_Some_lt in Hget.
  destruct (ok c); [|discriminate].
  intros Hk. exists (S i). split; [lia|exact Hk].
Qed.

Lemma repeat_greedy_advances body n :
  advances T body -> advances T (repeat_greedy body n).
Proof.
  intros Hbody. induction n as [|n IH]; intros i k e Hi; simpl.
  - intros Hk. exists i. split; [lia|exact Hk].
  - destruct (body i _) as [e'|] eqn:Hb.
    + intros [= ->]. apply Hbody in Hb; [|exact Hi].
      destruct Hb as (j & Hj & Hk).
      destruct (i <? j)%nat; [|exists j; split; [lia|exact Hk]].
      apply IH in Hk; [|lia].
      destruct Hk as (j' & Hj' & Hk). exists j'. split; [lia|exact Hk].
    + intros Hk. exists i. split; [lia|exact Hk].
Qed.

Lemma match_at_advances r : advances T (match_at fl T r).
Proof.
  induction r as [| c | | negate ranges | | | r1 IH1 r2 IH2 | r1 IH1 r2 IH2
                 | r IH]; simpl.
  - intros i k e Hi Hk. exists i. split; [lia|exact Hk].
  - apply one_advances.
  - apply one_advances.
  - apply one_advances.
  - intros i k e Hi. destruct (at_bol fl T i); [|discriminate].
    intros Hk. exists i. split; [lia|exact Hk].
  - intros i k e Hi. destruct (at_eol fl T i); [|discriminate].
    intros Hk. exists i. split; [lia|exact Hk].
  - intros i k e Hi H1. apply IH1 in H1; [|exact Hi].
    destruct H1 as (j & Hj & H2). apply IH2 in H2; [|lia].
    destruct H2 as (j' & Hj' & Hk). exists j'. split; [lia|exact Hk].
  - intros i k e Hi. destruct (match_at fl T r1 i k) as [e'|] eqn:H1.
    + intros [= ->]. apply IH1 in H1; assumption.
    + intros H2. apply IH2 in H2; assumption.
  - intros i k e Hi. apply repeat_greedy_advances; assumption.
Qed.

Lemma scan_span r n i s e :
  (i <= String.length T)%nat -> (i + n <= S (String.length T))%nat ->
  scan fl T r n i = Some (s, e) ->
  (i <= s <= e)%nat /\ (e <= String.length T)%nat /\
  match_at fl T r s Some = Some e.
Proof.
  revert i. induction n as [|n IH]; intros i Hi Hn; simpl; [discriminate|].
  destruct (match_at fl T r i Some) as [e'|] eqn:Hm.
  - intros [= <- <-]. pose proof Hm as Hm'.
    apply match_at_advances in Hm; [|exact Hi].
    destruct Hm as (j & Hj & [= ->]). repeat split; try lia. exact Hm'.
  - intros Hs. destruct n as [|n']; [discriminate|].
    apply IH in Hs; [|lia|lia]. destruct Hs as (? & ? & ?).
    repeat split; try lia. assumption.
Qed.

End MatcherBounds.

(** The span of a match found by [search] lies in the text, at or after
    [pos] (or the end of the text when [pos] is beyond it), and the pattern
    matches from its start to its end. *)
Lemma search_span r fl T pos s e :
  search (re_compile r fl) T pos = Some (s, e) ->
  (Nat.min pos (String.length T) <= s <= e)%nat /\
  (e <= String.length T)%nat /\
  match_at fl T r s Some = Some e.
Proof.
  unfold re_compile, search. intros H.
  apply scan_span in H; [exact H|lia|lia].
Qed.

(** A search from beyond the end of the text is a search from its end. *)
Lemma search_clamp r fl T pos :
  (String.length T <= pos)%nat ->
  search (re_compile r fl) T pos = search (re_compile r fl) T (String.length T).
Proof.
  intros H. unfold re_compile, search.
  rewrite Nat.min_r by exact H. rewrite Nat.min_id.
  reflexivity.
Qed.

(** ** The scanning loop *)

Section Loop.

Variables (source_text : string) (pick_pos : nat) (word_re : SRE_Pattern).

(** An iteration that does not leave the loop moves [pos] forward, sets
    the span to that of a match found from the old [pos], and that match
    starts at or before [pick_pos]. *)
Lemma iteration_continues pos ms me pos' ms' me' :
  iteration source_text pick_pos word_re (pos, ms, me) = inr (pos', ms', me') ->
  (pos < pos')%nat /\ pos' = S (Nat.max pos ms') /\
  (ms' <= pick_pos)%nat /\ pos <> String.length source_text /\
  search word_re source_text pos = Some (ms', me').
Proof.
  unfold iteration.
  destruct (pos =? String.length source_text)%nat eqn:Hend; [discriminate|].
  apply Nat.eqb_neq in Hend.
  destruct (search word_re source_text pos) as [[s e]|]; [|discriminate].
  destruct ((s <=? pick_pos)%nat && (pick_pos <? e)%nat); [discriminate|].
  destruct (pick_pos <? s)%nat eqn:Hlt; [discriminate|].
  apply Nat.ltb_ge in Hlt.
  destruct (pos <? s)%nat eqn:Hps; intros [= <- <- <-];
    [apply Nat.ltb_lt in Hps | apply Nat.ltb_ge in Hps];
    repeat split; lia.
Qed.

(** An iteration that leaves the loop with [found] set leaves it at a
    match that contains [pick_pos]. *)
Lemma iteration_found pos ms me s e :
  iteration source_text pick_pos word_re (pos, ms, me) = inl (true, s, e) ->
  (s <= pick_pos < e)%nat /\ search word_re source_text pos = Some (s, e).
Proof.
  unfold iteration.
  destruct (pos =? String.length source_text)%nat; [discriminate|].
  destruct (search word_re source_text pos) as [[s' e']|]; [|discriminate].
  destruct ((s' <=? pick_pos)%nat && (pick_pos <? e')%nat) eqn:Hin.
  - intros [= <- <-]. apply andb_prop in Hin. destruct Hin as [H1 H2].
    apply Nat.leb_le in H1. apply Nat.ltb_lt in H2. split; [lia|reflexivity].
  - destruct (pick_pos <? s')%nat; discriminate.
Qed.

Lemma while_found fuel st s e :
  while source_text pick_pos word_re fuel st = Some (true, s, e) ->
  (s <= pick_pos < e)%nat /\
  exists pos, search word_re source_text pos = Some (s, e).
Proof.
  revert st. induction fuel as [|fuel IH]; intros st; simpl; [discriminate|].
  destruct (iteration source_text pick_pos word_re st) as [res|st'] eqn:Hit.
  - intros [= ->]. destruct st as [[pos ms] me].
    apply iteration_found in Hit. destruct Hit as [Hin Hs]. eauto.
  - apply IH.
Qed.

(** More fuel does not change a result. *)
Lemma while_more_fuel fuel fuel' st res :
  (fuel <= fuel')%nat -> while source_text pick_pos word_re fuel st = Some res -> while source_text pick_pos word_re fuel' st = Some res.
Proof.
  revert fuel' st. induction fuel as [|fuel IH]; intros fuel' st Hle; simpl;
    [discriminate|].
  destruct fuel' as [|fuel']; [lia|]. simpl.
  destruct (iteration source_text pick_pos word_re st) as [r|st']; [trivial|].
  apply IH. lia.
Qed.

(** Once [pos] is beyond the end of the text and [pick_pos] at or beyond
    it, a pattern that matches the empty string at the end of the text
    keeps the loop running for ever. *)
Lemma while_overshoot fuel pos ms me :
  (String.length source_text < pos)%nat ->
  (String.length source_text <= pick_pos)%nat ->
  (forall q, (String.length source_text <= q)%nat ->
     search word_re source_text q =
       Some (String.length source_text, String.length source_text)) ->
  while source_text pick_pos word_re fuel (pos, ms, me) = None.
Proof.
  intros Hpos Hpick Hend. revert pos ms me Hpos.
  induction fuel as [|fuel IH]; intros pos ms me Hpos; simpl; [reflexivity|].
  destruct (pos =? String.length source_text)%nat eqn:E;
    [apply Nat.eqb_eq in E; lia|].
  rewrite Hend by lia.
  replace (_ && _) with false
    by (symmetry; apply andb_false_intro2; apply Nat.ltb_ge; lia).
  replace (pick_pos <? _)%nat with false by (symmetry; apply Nat.ltb_ge; lia).
  apply IH. destruct (pos <? _)%nat; lia.
Qed.

(** When every match ends inside the text, a [pick_pos] at or beyond the
    end of the text is never found. *)
Lemma while_beyond_end fuel st found s e :
  (forall pos s e, search word_re source_text pos = Some (s, e) ->
                   (e <= String.length source_text)%nat) ->
  (String.length source_text <= pick_pos)%nat ->
  while source_text pick_pos word_re fuel st = Some (found, s, e) -> found = false.
Proof.
  intros Hspan Hpick H. destruct found; [|reflexivity].
  apply while_found in H. destruct H as [Hin [pos Hs]].
  apply Hspan in Hs. lia.
Qed.

(** With [pick_pos] inside the text the loop is left within
    [length + 1] iterations, whatever the pattern. *)
Lemma while_terminates_inside n pos ms me :
  (pick_pos < String.length source_text)%nat ->
  (pos <= String.length source_text)%nat ->
  (String.length source_text - pos < n)%nat ->
  exists res, while source_text pick_pos word_re n (pos, ms, me) = Some res.
Proof.
  intros Hpick. revert pos ms me.
  induction n as [|n IH]; intros pos ms me Hpos Hn; [lia|].
  cbn [while].
  destruct (iteration source_text pick_pos word_re (pos, ms, me))
    as [res|[[pos' ms'] me']] eqn:Hit; [exists res; reflexivity|].
  apply iteration_continues in Hit.
  destruct Hit as (Hlt & -> & Hms & Hne & Hs).
  apply IH; lia.
Qed.

End Loop.

(** ** What [_find_text] returns *)

(** C1: when [_find_text], for a [pick_pos] from 0 to the length of the
    text, returns [found] set with the span [(s, e)], then
    [s <= pick_pos < e] and the span is that of a match of the pattern in
    the text: [search] returned it and, for a pattern compiled by
    [re_compile], the pattern matches the text from [s] to [e], which lies
    inside the text. *)
Theorem find_text_found (T : string) (p : nat) (word_re : SRE_Pattern)
    (fuel s e : nat) :
  (0 <= p <= String.length T)%nat ->
  _find_text T p word_re fuel = Some (true, s, e) ->
  (s <= p < e)%nat /\
  (exists pos, search word_re T pos = Some (s, e)) /\
  (forall r fl, word_re = re_compile r fl ->
     (e <= String.length T)%nat /\ match_at fl T r s Some = Some e).
Proof.
  intros _ H. apply while_found in H. destruct H as [Hin [pos Hs]].
  split; [exact Hin|]. split; [exists pos; exact Hs|].
  intros r fl ->. apply search_span in Hs. tauto.
Qed.

Lemma find_text_found_witness :
  (0 <= 4 < 7)%nat /\
  (exists pos, search name_chars "foo_bar baz" pos = Some (0, 7)%nat) /\
  (forall r fl, name_chars = re_compile r fl ->
     (7 <= String.length "foo_bar baz")%nat /\
     match_at fl "foo_bar baz" r 0 Some = Some 7%nat).
Proof.
  apply (find_text_found "foo_bar baz" 4 name_chars 5 0 7).
  - simpl. lia.
  - vm_compute. reflexivity.
Defined.

(** C8: in the text of the two lines "line one" and "line two", each
    ended by a newline, with the pattern [^.*\n] compiled with the
    multi-line flag and [pick_pos] anywhere in the second line (offsets 9
    to 17), [_find_text] returns [found] set and the span [(9, 18)], which
    is exactly the second line with its newline;
    [_select_multiple_line_regex] selects that span. *)
Theorem line_plus_finds_line_two (p fuel : nat) :
  (9 <= p < 18)%nat -> (2 <= fuel)%nat ->
  _find_text two_lines p line_plus fuel = Some (true, 9, 18)%nat /\
  substring 9 (18 - 9) two_lines = ("line two" ++ String newline "")%string /\
  _select_multiple_line_regex fuel
    {| get_text := two_lines; get_selection := None |} p line_plus =
  Some (true, {| get_text := two_lines; get_selection := Some (9, 18)%nat |}).
Proof.
  intros Hp Hfuel.
  assert (H2 : _find_text two_lines p line_plus 2 = Some (true, 9, 18)%nat).
  { assert (Hcases : In p (seq 9 9)) by (apply in_seq; lia).
    simpl in Hcases.
    repeat (destruct Hcases as [<- | Hcases]; [vm_compute; reflexivity|]).
    contradiction. }
  assert (H : _find_text two_lines p line_plus fuel = Some (true, 9, 18)%nat)
    by (exact (while_more_fuel _ _ _ 2 fuel _ _ Hfuel H2)).
  split; [exact H|]. split; [reflexivity|].
  unfold _select_multiple_line_regex. cbn [get_text].
  change (utf8 two_lines) with two_lines. rewrite H. reflexivity.
Qed.

Lemma line_plus_finds_line_two_witness :
  _find_text two_lines 12 line_plus 5 = Some (true, 9, 18)%nat.
Proof.
  apply (line_plus_finds_line_two 12 5); lia.
Defined.

(** ** A loop that is never left *)

Lemma overshoot_runs_for_ever T p r fl fuel pos ms me :
  search (re_compile r fl) T (String.length T) =
    Some (String.length T, String.length T) ->
  iteration T p (re_compile r fl) (0, 0, 0)%nat = inr (pos, ms, me) ->
  (String.length T < pos)%nat -> (String.length T <= p)%nat ->
  _find_text T p (re_compile r fl) fuel = None.
Proof.
  intros Hend Hit Hpos Hp. unfold _find_text.
  destruct fuel as [|fuel]; [reflexivity|]. cbn [while]. rewrite Hit.
  apply while_overshoot; [exact Hpos|exact Hp|].
  intros q Hq. rewrite search_clamp by exact Hq. exact Hend.
Qed.

(** C3: the claim is that the loop ends, with [pos] bounded by the length
    of the text.  On the text "ab" with [pick_pos = 2] and the pattern [$]
    the first iteration finds the empty match at the end of the text and
    sets [pos] to 3, beyond the length 2; the test [pos != len] then holds
    for ever and no number of iterations ends the loop. *)
Theorem find_text_pos_passes_the_end :
  locals_after "ab" 2 end_of_line 1 (0, 0, 0)%nat = Some (3, 2, 2)%nat /\
  forall fuel, _find_text "ab" 2 end_of_line fuel = None.
Proof.
  split; [reflexivity|]. intros fuel.
  apply (overshoot_runs_for_ever "ab" 2 Eol no_flags fuel 3 2 2);
    [reflexivity|reflexivity|simpl; lia|simpl; lia].
Qed.

(** C10: the claim is that [_find_text] returns [found] unset when
    [pick_pos] is at or beyond the end of the text.  On the line "word"
    with [pick_pos = 4], its length, and the pattern [[ \t]*$] it returns
    nothing at all: the loop runs for ever. *)
Theorem find_text_at_end_never_returns :
  forall fuel, _find_text "word" 4 trailing_blanks fuel = None.
Proof.
  intros fuel.
  apply (overshoot_runs_for_ever "word" 4
           (Seq (Star (CharSet false [(" ", " "); ("009", "009")]%char)) Eol)
           no_flags fuel 5 4 4);
    [reflexivity|reflexivity|simpl; lia|simpl; lia].
Qed.

(** What does hold at or beyond the end of the text: a compiled pattern is
    never found there, and the empty text is left at once. *)
Lemma find_text_beyond_end T p r fl fuel found s e :
  (String.length T <= p)%nat ->
  _find_text T p (re_compile r fl) fuel = Some (found, s, e) ->
  found = false.
Proof.
  intros Hp. apply while_beyond_end; [|exact Hp].
  intros pos s' e' Hs. apply search_span in Hs. tauto.
Qed.

Lemma find_text_empty p word_re fuel :
  _find_text "" p word_re (S fuel) = Some (false, 0, 0)%nat.
Proof. reflexivity. Qed.

(** With [pick_pos] inside the text [_find_text] returns. *)
Lemma find_text_returns_inside T p word_re :
  (p < String.length T)%nat ->
  exists res, _find_text T p word_re (S (String.length T)) = Some res.
Proof.
  intros Hp. apply while_terminates_inside; [exact Hp|lia|lia].
Qed.

(** * Further properties *)

Open Scope Q_scope.

(** ** The double-press entry point *)

(** X1: on a well-formed record the double-press handler suppresses,
    leaving the helper alone, exactly when [now] is within the interval of
    the level-4 time, and in every other case records slot 2 and emits
    2. *)
Theorem double_press_rules (h : helper) (now t4 : Q) :
  well_formed h ->
  last_click h 4 = Some t4 ->
  let d := _double_click_time h in
  (now - t4 < d -> _handle_2button_press now h = inr ((true, None), h)) /\
  (~ now - t4 < d ->
     _handle_2button_press now h = inr ((false, Some 2%nat), record 2 now h)) /\
  (forall r h', _handle_2button_press now h = inr (r, h') ->
                (r = (true, None) <-> now - t4 < d)).
Proof.
  intros W E4. explicit h. unfold last_click in E4. simpl in *.
  injection E4 as ->. rewrite _handle_2button_press_eq.
  destruct (Qltb (now - t4) d) eqn:Hb.
  - apply Qltb_spec in Hb. repeat split; try tauto. congruence.
  - assert (Hn : ~ now - t4 < d)
      by (intros Hlt; apply Qltb_spec in Hlt; congruence).
    repeat split; try tauto; try congruence.
Qed.

Lemma double_press_rules_witness :
  _handle_2button_press 7 (init 0.4) =
    inr ((false, Some 2%nat), record 2 7 (init 0.4)).
Proof.
  apply (double_press_rules (init 0.4) 7 0 (init_well_formed 0.4) eq_refl).
  simpl; intros H; vm_compute in H; discriminate H.
Defined.

(** ** Streams of presses *)

Lemma handlers_return ty now h :
  well_formed h ->
  exists r h', handlers_by_type ty now h = inr (r, h') /\ is_result r /\
               _double_click_time h' = _double_click_time h.
Proof.
  intros W. explicit h.
  assert (Hs : is_result (true, None)) by (left; reflexivity).
  assert (He : forall L, (1 <= L <= 5)%nat -> is_result (false, Some L))
    by (intros L HL; right; exists L; auto).
  destruct ty; simpl;
    [rewrite _handle_1button_press_eq | rewrite _handle_2button_press_eq
     | rewrite _handle_3button_press_eq];
    repeat match goal with |- context [if ?b then _ else _] => destruct b end;
    eexists _, _; (split; [reflexivity|]); split;
      first [exact Hs | apply He; lia | reflexivity].
Qed.

(** X2: from a well-formed record a stream of presses of any length and
    with any times is handled without an exception; it gives one result
    per press, each a suppression or a level from 1 to 5, and leaves a
    well-formed record with the same interval. *)
Theorem presses_never_raise (evs : list (press * Q)) (h : helper) :
  well_formed h ->
  exists rs h',
    presses evs h = inr (rs, h') /\
    length rs = length evs /\ Forall is_result rs /\
    well_formed h' /\ _double_click_time h' = _double_click_time h.
Proof.
  revert h. induction evs as [|[ty now] evs IH]; intros h W.
  - exists [], h. repeat split; auto; apply W.
  - destruct (handlers_return ty now h W) as (r & h1 & Hrun & Hr & Hd).
    pose proof (handlers_keep_well_formed ty now h r h1 W Hrun) as W1.
    destruct (IH h1 W1) as (rs & h' & Hrest & Hlen & Hall & W' & Hd').
    exists (r :: rs), h'. cbn [presses]. unfold bind at 1. rewrite Hrun.
    unfold bind at 1. rewrite Hrest. unfold ret.
    repeat split; simpl; auto; try congruence; apply W'.
Qed.

Lemma presses_never_raise_witness :
  exists rs h',
    presses [(BUTTON_PRESS, 7); (_3BUTTON_PRESS, 1)] (init 0.4) = inr (rs, h').
Proof.
  destruct (presses_never_raise [(BUTTON_PRESS, 7); (_3BUTTON_PRESS, 1)]
              (init 0.4) (init_well_formed 0.4)) as (rs & h' & Hrun & _).
  exists rs, h'. exact Hrun.
Defined.

(** X3: the presses of five clicks in a row, as GTK reports them (a
    single press for each click, followed by a double press for the second
    and the fifth click and by a triple press for the third), each within
    the interval of the press before it that was recorded and the first at
    least the interval after time 0, give the levels 1, 2, 3, 4 and 5 in
    this order, each once; the other three presses are suppressed. *)
Theorem quintuple_click_stream (d a1 a2 a2' a3 a3' a4 a5 a5' : Q) :
  d <= a1 -> a1 <= a2 -> a2 <= a2' -> a2' <= a3 -> a3 <= a3' ->
  a3' <= a4 -> a4 <= a5 -> a5 <= a5' ->
  a2 - a1 < d -> a3 - a2' < d -> a4 - a3' < d -> a5' - a4 < d ->
  presses [(BUTTON_PRESS, a1);
           (BUTTON_PRESS, a2); (_2BUTTON_PRESS, a2');
           (BUTTON_PRESS, a3); (_3BUTTON_PRESS, a3');
           (BUTTON_PRESS, a4);
           (BUTTON_PRESS, a5); (_2BUTTON_PRESS, a5')] (init d) =
  inr ([(false, Some 1%nat);
        (true, None); (false, Some 2%nat);
        (true, None); (false, Some 3%nat);
        (false, Some 4%nat);
        (false, Some 5%nat); (true, None)],
       Helper [PyNone; PyNum a1; PyNum a2'; PyNum a3'; PyNum a4; PyNum a5] d).
Proof.
  intros. unfold presses, handlers_by_type, bind, init.
  rewrite _handle_1button_press_eq.
  rewrite !(Qltb_false (a1 - 0) d) by lra.
  unfold record; simpl.
  rewrite _handle_1button_press_eq.
  rewrite !(Qltb_false (a2 - 0) d) by lra.
  rewrite (Qltb_true (a2 - a1) d) by lra.
  rewrite _handle_2button_press_eq.
  rewrite (Qltb_false (a2' - 0) d) by lra.
  unfold record; simpl.
  rewrite _handle_1button_press_eq.
  rewrite !(Qltb_false (a3 - 0) d) by lra.
  rewrite (Qltb_true (a3 - a2') d) by lra.
  rewrite _handle_3button_press_eq.
  rewrite (Qltb_false (a3' - 0) d) by lra.
  unfold record; simpl.
  rewrite _handle_1button_press_eq.
  rewrite (Qltb_false (a4 - 0) d) by lra.
  rewrite (Qltb_true (a4 - a3') d) by lra.
  unfold record; simpl.
  rewrite _handle_1button_press_eq.
  rewrite (Qltb_true (a5 - a4) d) by lra.
  unfold record; simpl.
  rewrite _handle_2button_press_eq.
  rewrite (Qltb_true (a5' - a4) d) by lra.
  reflexivity.
Qed.

Lemma quintuple_click_stream_witness :
  presses [(BUTTON_PRESS, 7);
           (BUTTON_PRESS, 7.1); (_2BUTTON_PRESS, 7.1);
           (BUTTON_PRESS, 7.2); (_3BUTTON_PRESS, 7.2);
           (BUTTON_PRESS, 7.3);
           (BUTTON_PRESS, 7.4); (_2BUTTON_PRESS, 7.4)] (init 0.4) =
  inr ([(false, Some 1%nat);
        (true, None); (false, Some 2%nat);
        (true, None); (false, Some 3%nat);
        (false, Some 4%nat);
        (false, Some 5%nat); (true, None)],
       Helper [PyNone; PyNum 7; PyNum 7.1; PyNum 7.2; PyNum 7.3; PyNum 7.4]
              0.4).
Proof.
  apply (quintuple_click_stream 0.4 7 7.1 7.1 7.2 7.2 7.3 7.4 7.4);
    vm_compute; first [discriminate | reflexivity].
Defined.

(** X4: a press that comes at least the interval after every recorded
    time is counted on its own: the single press emits 1, the double press
    2 and the triple press 3, and the time is recorded in that slot. *)
Theorem isolated_press (ty : press) (now : Q) (h : helper) :
  well_formed h ->
  (forall L t, (1 <= L <= 5)%nat -> last_click h L = Some t ->
               _double_click_time h <= now - t) ->
  handlers_by_type ty now h =
    inr ((false, Some (own_level ty)), record (own_level ty) now h).
Proof.
  intros W Hfar.
  assert (Hout : forall L t, (1 <= L <= 5)%nat -> last_click h L = Some t ->
                   Qltb (now - t) (_double_click_time h) = false).
  { intros L t HL E. apply Qltb_false. specialize (Hfar L t HL E).
    intros Hlt. lra. }
  explicit h.
  pose proof (Hout 1%nat _ ltac:(lia) eq_refl) as H1.
  pose proof (Hout 2%nat _ ltac:(lia) eq_refl) as H2.
  pose proof (Hout 3%nat _ ltac:(lia) eq_refl) as H3.
  pose proof (Hout 4%nat _ ltac:(lia) eq_refl) as H4.
  pose proof (Hout 5%nat _ ltac:(lia) eq_refl) as H5.
  destruct ty; simpl.
  - rewrite _handle_1button_press_eq, H4, H3, H2, H1. reflexivity.
  - rewrite _handle_2button_press_eq, H4. reflexivity.
  - rewrite _handle_3button_press_eq, H5. reflexivity.
Qed.

Lemma isolated_press_witness :
  handlers_by_type _2BUTTON_PRESS 7 (init 0.4) =
    inr ((false, Some 2%nat), record 2 7 (init 0.4)).
Proof.
  apply (isolated_press _2BUTTON_PRESS 7 (init 0.4) (init_well_formed 0.4)).
  intros L t HL. unfold last_click. simpl.
  destruct L as [|[|[|[|[|[|L]]]]]]; simpl; try lia;
    intros [= <-]; vm_compute; discriminate.
Defined.

Close Scope Q_scope.

(** ** The match that [_find_text] returns *)

Section FirstMatch.

Variables (r : regex) (fl : re_flags) (T : string) (p : nat).

(** [scan] returns the match at the first offset that has one. *)
Lemma scan_leftmost n i s e :
  scan fl T r n i = Some (s, e) ->
  i <= s < i + n /\ match_at fl T r s Some = Some e /\
  forall j, i <= j < s -> match_at fl T r j Some = None.
Proof.
  revert i. induction n as [|n IH]; intros i; simpl; [discriminate|].
  destruct (match_at fl T r i Some) as [e'|] eqn:Hm.
  - intros [= <- <-]. repeat split; try lia. exact Hm.
  - intros Hs. apply IH in Hs. destruct Hs as (Hrange & Hmatch & Hnone).
    repeat split; try lia; [exact Hmatch|].
    intros j Hj. destruct (decide (j = i)) as [->|Hne]; [exact Hm|].
    apply Hnone. lia.
Qed.

Lemma scan_nothing n i :
  scan fl T r n i = None ->
  forall j, i <= j < i + n -> match_at fl T r j Some = None.
Proof.
  revert i. induction n as [|n IH]; intros i; simpl; [intros _ j Hj; lia|].
  destruct (match_at fl T r i Some) as [e'|] eqn:Hm; [discriminate|].
  intros Hs j Hj. destruct (decide (j = i)) as [->|Hne]; [exact Hm|].
  apply (IH (S i) Hs). lia.
Qed.

(** No offset of the text before [pos] has a match that contains [p]. *)
Let scanned (pos : nat) : Prop :=
  forall s' e', s' < pos -> s' <= String.length T ->
    match_at fl T r s' Some = Some e' -> ~ (s' <= p < e').

Lemma search_leftmost pos s e :
  search (re_compile r fl) T pos = Some (s, e) ->
  match_at fl T r s Some = Some e /\
  Nat.min pos (String.length T) <= s <= e /\ e <= String.length T /\
  forall j, pos <= j < s -> match_at fl T r j Some = None.
Proof.
  intros H. pose proof (search_span _ _ _ _ _ _ H) as (Hs & He & _).
  unfold re_compile, search in H. apply scan_leftmost in H.
  destruct H as (Hrange & Hm & Hnone).
  repeat split; try lia; [exact Hm|].
  intros j Hj. apply Hnone. lia.
Qed.

Lemma search_nothing pos :
  search (re_compile r fl) T pos = None ->
  forall j, pos <= j <= String.length T -> match_at fl T r j Some = None.
Proof.
  unfold re_compile, search. intros H j Hj.
  apply (scan_nothing _ _ H). lia.
Qed.

Lemma iteration_scanned pos ms me :
  scanned pos ->
  match iteration T p (re_compile r fl) (pos, ms, me) with
  | inr (pos', _, _) => scanned pos'
  | inl (true, s, e) =>
      match_at fl T r s Some = Some e /\ s <= p < e /\
      e <= String.length T /\ scanned s
  | inl (false, _, _) => scanned (S (String.length T))
  end.
Proof.
  intros Inv. unfold iteration.
  destruct (pos =? String.length T) eqn:Hend.
  { apply Nat.eqb_eq in Hend. intros s' e' Hlt Hlen Hm.
    destruct (decide (s' < pos)) as [Hb|Hb]; [exact (Inv s' e' Hb Hlen Hm)|].
    apply match_at_advances in Hm; [|exact Hlen].
    destruct Hm as (j & Hj & [= ->]). lia. }
  apply Nat.eqb_neq in Hend.
  destruct (search (re_compile r fl) T pos) as [[s e]|] eqn:Hs.
  2:{ intros s' e' Hlt Hlen Hm.
      destruct (decide (s' < pos)) as [Hb|Hb]; [exact (Inv s' e' Hb Hlen Hm)|].
      rewrite (search_nothing _ Hs s') in Hm by lia. discriminate. }
  apply search_leftmost in Hs. destruct Hs as (Hm & Hse & Hlen' & Hnone).
  assert (Hbefore : scanned s).
  { intros s' e' Hlt Hlen Hm'.
    destruct (decide (s' < pos)) as [Hb|Hb]; [exact (Inv s' e' Hb Hlen Hm')|].
    rewrite (Hnone s') in Hm' by lia. discriminate. }
  destruct ((s <=? p) && (p <? e)) eqn:Hin.
  { apply andb_prop in Hin. destruct Hin as [H1 H2].
    apply Nat.leb_le in H1. apply Nat.ltb_lt in H2.
    repeat split; try lia; assumption. }
  assert (Hout : ~ (s <= p < e)).
  { intros [H1 H2]. apply Nat.leb_le in H1. apply Nat.ltb_lt in H2.
    rewrite H1, H2 in Hin. discriminate. }
  destruct (p <? s) eqn:Hps.
  { apply Nat.ltb_lt in Hps. intros s' e' Hlt Hlen Hm'.
    destruct (decide (s' < s)) as [Hb|Hb]; [exact (Hbefore s' e' Hb Hlen Hm')|].
    lia. }
  apply Nat.ltb_ge in Hps.
  intros s' e' Hlt Hlen Hm'.
  destruct (decide (s' < s)) as [Hb|Hb]; [exact (Hbefore s' e' Hb Hlen Hm')|].
  destruct (decide (s' = s)) as [->|Hne]; [congruence|].
  destruct (pos <? s) eqn:Hpos;
    [apply Nat.ltb_lt in Hpos | apply Nat.ltb_ge in Hpos].
  - lia.
  - apply (Inv s' e'); [lia|exact Hlen|exact Hm'].
Qed.

Lemma while_scanned fuel pos ms me found s e :
  scanned pos ->
  while T p (re_compile r fl) fuel (pos, ms, me) = Some (found, s, e) ->
  if found
  then match_at fl T r s Some = Some e /\ s <= p < e /\
       e <= String.length T /\ scanned s
  else scanned (S (String.length T)).
Proof.
  revert pos ms me. induction fuel as [|fuel IH]; intros pos ms me Inv;
    [discriminate|]. cbn [while].
  pose proof (iteration_scanned pos ms me Inv) as Hit.
  destruct (iteration T p (re_compile r fl) (pos, ms, me))
    as [[[found' s0] e0]|[[pos' ms'] me']].
  - intros [= -> -> ->]. exact Hit.
  - apply IH. exact Hit.
Qed.

End FirstMatch.

(** X5: what [_find_text] returns for a compiled pattern is the first
    match that includes [pick_pos]: with [found] set, the pattern matches
    the text from [s] to [e], [s <= pick_pos < e <= len], and no offset
    before [s] has a match that includes [pick_pos]; with [found] unset, no
    offset of the text has a match that includes [pick_pos].  The match of
    an offset is the one the matcher prefers there. *)
Theorem find_text_first_match (r : regex) (fl : re_flags) (T : string)
    (p fuel : nat) (found : bool) (s e : nat) :
  _find_text T p (re_compile r fl) fuel = Some (found, s, e) ->
  (found = true ->
     match_at fl T r s Some = Some e /\ s <= p < e /\
     e <= String.length T /\
     forall s' e', s' < s -> match_at fl T r s' Some = Some e' ->
                   ~ (s' <= p < e')) /\
  (found = false ->
     forall s' e', s' <= String.length T ->
                   match_at fl T r s' Some = Some e' -> ~ (s' <= p < e')).
Proof.
  intros H. unfold _find_text in H.
  apply while_scanned in H; [|intros s' e' Hlt; lia].
  split; intros ->.
  - destruct H as (Hm & Hin & He & Hbefore). repeat split; try lia;
      try assumption.
    intros s' e' Hlt Hm'. apply (Hbefore s' e'); [exact Hlt|lia|exact Hm'].
  - intros s' e' Hlen Hm'. apply (H s' e'); [lia|exact Hlen|exact Hm'].
Qed.

Lemma find_text_first_match_witness :
  match_at no_flags "foo_bar baz"
    (Plus (CharSet false [("a", "z"); ("A", "Z"); ("_", "_")]%char)) 0 Some =
    Some 7 /\
  0 <= 4 < 7 /\ 7 <= String.length "foo_bar baz" /\
  forall s' e', s' < 0 ->
    match_at no_flags "foo_bar baz"
      (Plus (CharSet false [("a", "z"); ("A", "Z"); ("_", "_")]%char))
      s' Some = Some e' ->
    ~ (s' <= 4 < e').
Proof.
  apply (find_text_first_match
           (Plus (CharSet false [("a", "z"); ("A", "Z"); ("_", "_")]%char))
           no_flags "foo_bar baz" 4 5 true 0 7); reflexivity.
Defined.

(** ** When the scanning loop ends *)

Section Termination.

Variables (T : string) (p : nat) (word_re : SRE_Pattern).

(** A loop whose matches all start before the end of the text is left
    within [length + 1] iterations. *)
Lemma while_terminates_before_end n pos ms me :
  (forall pos s e, pos < String.length T ->
     search word_re T pos = Some (s, e) -> s < String.length T) ->
  pos <= String.length T -> String.length T - pos < n ->
  exists res, while T p word_re n (pos, ms, me) = Some res.
Proof.
  intros Hstart. revert pos ms me.
  induction n as [|n IH]; intros pos ms me Hpos Hn; [lia|].
  cbn [while].
  destruct (iteration T p word_re (pos, ms, me))
    as [res|[[pos' ms'] me']] eqn:Hit; [exists res; reflexivity|].
  apply iteration_continues in Hit.
  destruct Hit as (Hlt & -> & Hms & Hne & Hs).
  apply Hstart in Hs; [|lia]. apply IH; lia.
Qed.

End Termination.

Section Consumes.

Variables (fl : re_flags) (T : string).

Lemma match_at_consumes r :
  consumes r = true ->
  forall i k e, i <= String.length T -> match_at fl T r i k = Some e ->
    exists j, i < j <= String.length T /\ k j = Some e.
Proof.
  assert (Hone : forall ok i k e, one T ok i k = Some e ->
            exists j, i < j <= String.length T /\ k j = Some e).
  { intros ok i k e. unfold one.
    destruct (String.get i T) as [c|] eqn:Hget; [|discriminate].
    apply get_Some_lt in Hget. destruct (ok c); [|discriminate].
    intros Hk. exists (S i). split; [lia|exact Hk]. }
  induction r as [| c | | negate ranges | | | r1 IH1 r2 IH2 | r1 IH1 r2 IH2
                 | r IH]; simpl; try discriminate.
  - intros _ i k e _. apply Hone.
  - intros _ i k e _. apply Hone.
  - intros _ i k e _. apply Hone.
  - intros Hc i k e Hi H1. destruct (consumes r1) eqn:Hc1.
    + apply (IH1 eq_refl) in H1; [|exact Hi].
      destruct H1 as (j & Hj & H2).
      apply match_at_advances in H2; [|lia].
      destruct H2 as (j' & Hj' & Hk). exists j'. split; [lia|exact Hk].
    + simpl in Hc. apply match_at_advances in H1; [|exact Hi].
      destruct H1 as (j & Hj & H2). apply (IH2 Hc) in H2; [|lia].
      destruct H2 as (j' & Hj' & Hk). exists j'. split; [lia|exact Hk].
  - intros Hc i k e Hi. apply andb_prop in Hc. destruct Hc as [Hc1 Hc2].
    destruct (match_at fl T r1 i k) as [e'|] eqn:H1.
    + intros [= ->]. apply (IH1 Hc1) in H1; assumption.
    + intros H2. apply (IH2 Hc2) in H2; assumption.
Qed.

Lemma match_at_always r :
  always r = true ->
  forall i k, k i <> None -> match_at fl T r i k <> None.
Proof.
  induction r as [| c | | negate ranges | | | r1 IH1 r2 IH2 | r1 IH1 r2 IH2
                 | r IH]; simpl; try discriminate.
  - intros _ i k Hk. exact Hk.
  - intros Ha i k Hk. apply andb_prop in Ha. destruct Ha as [Ha1 Ha2].
    apply (IH1 Ha1). apply (IH2 Ha2). exact Hk.
  - intros Ha i k Hk. destruct (match_at fl T r1 i k) eqn:H1; [discriminate|].
    destruct (always r1) eqn:Ha1.
    + exfalso. exact (IH1 eq_refl i k Hk H1).
    + apply (IH2 Ha). exact Hk.
  - intros _ i k Hk. destruct (String.length T - i) as [|n]; simpl;
      [exact Hk|].
    destruct (match_at fl T r i _); [discriminate|exact Hk].
Qed.

(** Neither kind of pattern has, from an offset inside the text, a first
    match that starts at the end of the text. *)
Lemma search_starts_before_end r pos s e :
  consumes r || always r = true ->
  pos < String.length T ->
  search (re_compile r fl) T pos = Some (s, e) -> s < String.length T.
Proof.
  intros Hr Hpos Hs. apply orb_prop in Hr. destruct Hr as [Hc|Ha].
  - apply search_span in Hs. destruct Hs as (Hs & He & Hm).
    apply (match_at_consumes r Hc) in Hm; [|lia].
    destruct Hm as (j & Hj & [= ->]). lia.
  - unfold re_compile, search in Hs. rewrite Nat.min_l in Hs by lia.
    cbn [scan] in Hs.
    destruct (match_at fl T r pos Some) as [e'|] eqn:Hm.
    + injection Hs as <- <-. exact Hpos.
    + exfalso. apply (match_at_always r Ha pos Some); [discriminate|exact Hm].
Qed.

End Consumes.

(** X6: with [pick_pos] inside the text [_find_text] returns, whatever the
    pattern object: [length + 1] iterations are enough, and more give the
    same result. *)
Theorem find_text_returns_with_pick_inside (T : string) (p : nat)
    (word_re : SRE_Pattern) :
  p < String.length T ->
  exists res, forall fuel, S (String.length T) <= fuel ->
    _find_text T p word_re fuel = Some res.
Proof.
  intros Hp.
  destruct (while_terminates_inside T p word_re (S (String.length T)) 0 0 0 Hp)
    as [res Hres]; [lia|lia|].
  exists res. intros fuel Hfuel.
  exact (while_more_fuel _ _ _ _ fuel _ _ Hfuel Hres).
Qed.

Lemma find_text_returns_with_pick_inside_witness :
  exists res, forall fuel, S (String.length "ab") <= fuel ->
    _find_text "ab" 1 end_of_line fuel = Some res.
Proof.
  apply (find_text_returns_with_pick_inside "ab" 1 end_of_line).
  simpl. lia.
Defined.

(** X7: for a pattern of which every match takes at least one character,
    or which matches at every offset, [_find_text] returns for every text
    and every [pick_pos]: [length + 1] iterations are enough, and more give
    the same result. *)
Theorem find_text_returns_for_pattern (r : regex) (fl : re_flags)
    (T : string) (p : nat) :
  consumes r || always r = true ->
  exists res, forall fuel, S (String.length T) <= fuel ->
    _find_text T p (re_compile r fl) fuel = Some res.
Proof.
  intros Hr.
  destruct (while_terminates_before_end T p (re_compile r fl)
              (S (String.length T)) 0 0 0) as [res Hres]; [|lia|lia|].
  { intros pos s e. apply search_starts_before_end. exact Hr. }
  exists res. intros fuel Hfuel.
  exact (while_more_fuel _ _ _ _ fuel _ _ Hfuel Hres).
Qed.

Lemma find_text_returns_for_pattern_witness :
  exists res, forall fuel, S (String.length "a_b c") <= fuel ->
    _find_text "a_b c" 5 (re_compile python_name no_flags) fuel = Some res.
Proof.
  apply (find_text_returns_for_pattern python_name no_flags "a_b c" 5).
  reflexivity.
Defined.

Section Overshoot.

Variables (r : regex) (fl : re_flags) (T : string) (p : nat).

(** Beyond the end of the text every iteration sees the same search
    result: when one goes on, all do. *)
Lemma while_stays_beyond pos ms me st' :
  String.length T < pos ->
  iteration T p (re_compile r fl) (pos, ms, me) = inr st' ->
  forall fuel pos0 ms0 me0, String.length T < pos0 ->
    while T p (re_compile r fl) fuel (pos0, ms0, me0) = None.
Proof.
  intros Hpos Hit.
  assert (Hsame : forall pos0, String.length T < pos0 ->
            search (re_compile r fl) T pos0 = search (re_compile r fl) T pos).
  { intros pos0 H0. rewrite (search_clamp r fl T pos0) by lia.
    rewrite (search_clamp r fl T pos) by lia. reflexivity. }
  unfold iteration in Hit.
  destruct (pos =? String.length T); [discriminate|].
  destruct (search (re_compile r fl) T pos) as [[s e]|] eqn:Hs;
    [|discriminate].
  destruct ((s <=? p) && (p <? e)) eqn:Hin; [discriminate|].
  destruct (p <? s) eqn:Hps; [discriminate|]. clear Hit.
  induction fuel as [|fuel IH]; intros pos0 ms0 me0 H0; [reflexivity|].
  cbn [while]. unfold iteration.
  destruct (pos0 =? String.length T) eqn:E;
    [apply Nat.eqb_eq in E; lia|].
  rewrite (Hsame pos0 H0), Hin, Hps.
  apply IH. destruct (pos0 <? s) eqn:E0; [apply Nat.ltb_lt in E0|]; lia.
Qed.

Lemma while_none_for_ever n pos ms me :
  String.length T < pos + S n ->
  while T p (re_compile r fl) (S n) (pos, ms, me) = None ->
  forall fuel, while T p (re_compile r fl) fuel (pos, ms, me) = None.
Proof.
  revert pos ms me. induction n as [|n IH]; intros pos ms me Hlen Hnone.
  - cbn [while] in Hnone.
    destruct (iteration T p (re_compile r fl) (pos, ms, me))
      as [res|[[pos' ms'] me']] eqn:Hit; [discriminate|].
    pose proof (iteration_continues _ _ _ _ _ _ _ _ _ Hit)
      as (_ & _ & _ & Hne & _).
    intros fuel.
    apply (while_stays_beyond pos ms me (pos', ms', me')); [lia|exact Hit|lia].
  - remember (S n) as m. cbn [while] in Hnone.
    destruct (iteration T p (re_compile r fl) (pos, ms, me))
      as [res|[[pos' ms'] me']] eqn:Hit; [discriminate|].
    pose proof (iteration_continues _ _ _ _ _ _ _ _ _ Hit) as (Hlt & _).
    subst m. intros [|fuel]; [reflexivity|]. cbn [while]. rewrite Hit.
    apply IH; [lia|exact Hnone].
Qed.

End Overshoot.

(** X8: for a compiled pattern [_find_text] returns within [length + 1]
    iterations of its loop or never: every run of at least that many
    iterations gives what [length + 1] iterations give, a result or
    none. *)
Theorem find_text_fuel_bound (r : regex) (fl : re_flags) (T : string)
    (p fuel : nat) :
  S (String.length T) <= fuel ->
  _find_text T p (re_compile r fl) fuel =
  _find_text T p (re_compile r fl) (S (String.length T)).
Proof.
  intros Hfuel. unfold _find_text.
  destruct (while T p (re_compile r fl) (S (String.length T)) (0, 0, 0))
    as [res|] eqn:Hres.
  - exact (while_more_fuel _ _ _ _ fuel _ _ Hfuel Hres).
  - apply (while_none_for_ever r fl T p (String.length T)); [lia|exact Hres].
Qed.

Lemma find_text_fuel_bound_witness :
  _find_text "word" 4 trailing_blanks 9 =
  _find_text "word" 4 trailing_blanks (S (String.length "word")).
Proof.
  apply (find_text_fuel_bound
           (Seq (Star (CharSet false [(" ", " "); ("009", "009")]%char)) Eol)
           no_flags "word" 4 9).
  simpl. lia.
Defined.

(** ** Lines of the buffer *)

Lemma get_None_ge (T : string) (i : nat) :
  String.get i T = None -> String.length T <= i.
Proof.
  revert i. induction T as [|a T IH]; intros [|i]; simpl;
    try discriminate; try lia.
  intros H. apply IH in H. lia.
Qed.

Lemma substring_length (T : string) (n m : nat) :
  n + m <= String.length T -> String.length (substring n m T) = m.
Proof.
  revert n m. induction T as [|a T IH]; intros [|n] [|m]; simpl;
    try reflexivity; try lia.
  - intros H. f_equal. apply (IH 0 m). lia.
  - intros H. apply (IH n 0). lia.
  - intros H. apply (IH n (S m)). lia.
Qed.

Lemma ends_line_spec (T : string) (off : nat) :
  off <= String.length T ->
  ends_line T off = true ->
  off = String.length T \/ String.get off T = Some newline.
Proof.
  intros Hoff. unfold ends_line.
  destruct (String.get off T) as [c|] eqn:Hget.
  - intros H. apply Ascii.eqb_eq in H. subst c. right. reflexivity.
  - intros _. apply get_None_ge in Hget. left. lia.
Qed.

Lemma not_ends_line (T : string) (i : nat) :
  ends_line T i = false -> String.get i T <> Some newline.
Proof.
  unfold ends_line. intros H Hget. rewrite Hget in H.
  rewrite Ascii.eqb_refl in H. discriminate.
Qed.

Lemma line_start_spec (T : string) (off : nat) :
  line_start T off <= off /\
  (line_start T off = 0 \/
   exists i, line_start T off = S i /\ String.get i T = Some newline) /\
  forall i, line_start T off <= i < off -> String.get i T <> Some newline.
Proof.
  induction off as [|off (IHle & IHat & IHin)]; simpl.
  - split; [lia|]. split; [left; reflexivity|intros i Hi; lia].
  - assert (Hgo : String.get off T <> Some newline ->
                  line_start T off <= S off /\
                  (line_start T off = 0 \/
                   exists i, line_start T off = S i /\
                             String.get i T = Some newline) /\
                  forall i, line_start T off <= i < S off ->
                            String.get i T <> Some newline).
    { intros Hno. split; [lia|]. split; [exact IHat|].
      intros i Hi. destruct (decide (i = off)) as [->|Hne]; [exact Hno|].
      apply IHin. lia. }
    destruct (String.get off T) as [c|] eqn:Hget; [|apply Hgo; discriminate].
    destruct (Ascii.eqb c newline) eqn:Hc.
    + apply Ascii.eqb_eq in Hc. subst c.
      split; [lia|]. split; [|intros i Hi; lia].
      right. exists off. split; [reflexivity|exact Hget].
    + apply Hgo. intros [= ->]. rewrite Ascii.eqb_refl in Hc. discriminate.
Qed.

Lemma line_end_from_spec (T : string) (n off : nat) :
  off + n = String.length T ->
  off <= line_end_from T n off <= String.length T /\
  ends_line T (line_end_from T n off) = true /\
  forall i, off <= i < line_end_from T n off ->
            String.get i T <> Some newline.
Proof.
  revert off. induction n as [|n IH]; intros off Hlen; simpl.
  - split; [lia|]. split; [|intros i Hi; lia].
    unfold ends_line. destruct (String.get off T) eqn:Hget; [|reflexivity].
    apply get_Some_lt in Hget. lia.
  - destruct (ends_line T off) eqn:Hend.
    + split; [lia|]. split; [exact Hend|intros i Hi; lia].
    + destruct (IH (S off) ltac:(lia)) as (Hle & Hat & Hin).
      split; [lia|]. split; [exact Hat|].
      intros i Hi. destruct (decide (i = off)) as [->|Hne];
        [apply not_ends_line; exact Hend|].
      apply Hin. lia.
Qed.

Lemma get_line_iter_pair_spec (T : string) (a_text_iter ls le : nat) :
  a_text_iter <= String.length T ->
  _get_line_iter_pair T a_text_iter = (ls, le) ->
  ls <= a_text_iter <= le /\ le <= String.length T /\
  (ls = 0 \/ exists i, ls = S i /\ String.get i T = Some newline) /\
  (le = String.length T \/ String.get le T = Some newline) /\
  forall i, ls <= i < le -> String.get i T <> Some newline.
Proof.
  intros Hit. unfold _get_line_iter_pair. intros [= <- <-].
  destruct (line_start_spec T a_text_iter) as (Hle & Hat & Hin).
  destruct (ends_line T a_text_iter) eqn:Hend; simpl.
  - split; [lia|]. split; [lia|]. split; [exact Hat|]. split; [|exact Hin].
    apply ends_line_spec; assumption.
  - unfold forward_to_line_end. rewrite Hend.
    destruct (line_end_from_spec T (String.length T - a_text_iter) a_text_iter
                ltac:(lia)) as (Hle' & Hat' & Hin').
    split; [lia|]. split; [lia|]. split; [exact Hat|]. split.
    + apply ends_line_spec; [lia|exact Hat'].
    + intros i Hi. destruct (decide (i < a_text_iter)) as [Hb|Hb];
        [apply Hin; lia | apply Hin'; lia].
Qed.

(** X9: for an iterator in the buffer, [_get_line_iter_pair] returns the
    bounds of its line: the start is at or before the iterator and is the
    start of the buffer or follows a newline, the end is at or after the
    iterator and is the end of the buffer or a newline, and no newline
    lies between the two. *)
Theorem line_iter_pair_bounds (T : string) (a_text_iter ls le : nat) :
  a_text_iter <= String.length T ->
  _get_line_iter_pair T a_text_iter = (ls, le) ->
  ls <= a_text_iter <= le /\ le <= String.length T /\
  (ls = 0 \/ exists i, ls = S i /\ String.get i T = Some newline) /\
  (le = String.length T \/ String.get le T = Some newline) /\
  forall i, ls <= i < le -> String.get i T <> Some newline.
Proof. apply get_line_iter_pair_spec. Qed.

Lemma line_iter_pair_bounds_witness :
  9 <= 12 <= 17 /\ 17 <= String.length two_lines /\
  (9 = 0 \/ exists i, 9 = S i /\ String.get i two_lines = Some newline) /\
  (17 = String.length two_lines \/ String.get 17 two_lines = Some newline) /\
  forall i, 9 <= i < 17 -> String.get i two_lines <> Some newline.
Proof.
  apply (line_iter_pair_bounds two_lines 12 9 17).
  - simpl. lia.
  - reflexivity.
Defined.

(** ** Selections *)

Lemma utf8_ascii (T : string) : is_ascii T = true -> utf8 T = T.
Proof.
  induction T as [|c T IH]; simpl; [reflexivity|].
  intros H. apply andb_prop in H. destruct H as [Hc HT].
  unfold utf8_char. rewrite Hc. simpl. rewrite (IH HT). reflexivity.
Qed.

Lemma is_ascii_substring (T : string) (n m : nat) :
  is_ascii T = true -> is_ascii (substring n m T) = true.
Proof.
  revert n m. induction T as [|c T IH]; intros [|n] [|m]; simpl;
    try reflexivity; intros H; apply andb_prop in H; destruct H as [Hc HT].
  - rewrite Hc. simpl. apply (IH 0 m HT).
  - apply (IH n 0 HT).
  - apply (IH n (S m) HT).
Qed.

Lemma set_line_offset_in_line (T : string) (it ls le n : nat) :
  _get_line_iter_pair T it = (ls, le) -> n <= le - ls ->
  set_line_offset T it n = ls + n.
Proof.
  intros Hpair Hn. unfold set_line_offset. rewrite Hpair.
  destruct (n <=? _) eqn:E; [reflexivity|].
  apply Nat.leb_gt in E. lia.
Qed.

(** Whatever the text, the selection functions leave the text alone, and
    the document too when nothing is found. *)
Lemma select_multiple_frame word_re fuel doc click found doc' :
  _select_multiple_line_regex fuel doc click word_re = Some (found, doc') ->
  get_text doc' = get_text doc /\ (found = false -> doc' = doc).
Proof.
  unfold _select_multiple_line_regex.
  destruct (_find_text _ click word_re fuel) as [[[found' s] e]|];
    [|discriminate].
  intros [= -> <-]. destruct found; split; try reflexivity; discriminate.
Qed.

Lemma select_single_frame word_re fuel doc click found doc' :
  _select_single_line_regex fuel doc click word_re = Some (found, doc') ->
  get_text doc' = get_text doc /\ (found = false -> doc' = doc).
Proof.
  unfold _select_single_line_regex.
  destruct (_get_line_iter_pair (get_text doc) click) as [ls le].
  destruct (_find_text _ _ word_re fuel) as [[[found' s] e]|];
    [|discriminate].
  intros [= -> <-]. destruct found; split; try reflexivity; discriminate.
Qed.

Lemma select_multiple_spec r fl fuel doc click doc' :
  click <= String.length (get_text doc) ->
  click < String.length (get_text doc) \/ is_ascii (get_text doc) = true ->
  _select_multiple_line_regex fuel doc click (re_compile r fl) =
    Some (true, doc') ->
  selected_around click doc doc'.
Proof.
  intros Hclick Hcase. unfold _select_multiple_line_regex.
  destruct (_find_text _ click (re_compile r fl) fuel)
    as [[[found' s] e]|] eqn:Hfind; [|discriminate].
  intros [= -> <-].
  apply while_found in Hfind. destruct Hfind as [Hin [pos Hs]].
  split; [reflexivity|].
  exists (set_offset (get_text doc) s), (set_offset (get_text doc) e).
  cbn [get_selection]. split; [reflexivity|]. unfold set_offset.
  destruct Hcase as [Hlt | Hascii]; [lia|].
  rewrite (utf8_ascii _ Hascii) in Hs.
  apply search_span in Hs. destruct Hs as (_ & He & _). lia.
Qed.

Lemma select_single_spec r fl fuel doc click doc' :
  click <= String.length (get_text doc) ->
  is_ascii (get_text doc) = true ->
  _select_single_line_regex fuel doc click (re_compile r fl) =
    Some (true, doc') ->
  selected_around click doc doc' /\ selected_in_line click doc doc'.
Proof.
  intros Hclick Hascii. unfold _select_single_line_regex, selected_in_line.
  destruct (_get_line_iter_pair (get_text doc) click) as [ls le] eqn:Hpair.
  destruct (get_line_iter_pair_spec _ _ _ _ Hclick Hpair)
    as (Hls & Hle & _ & _ & Hline).
  rewrite (utf8_ascii _ (is_ascii_substring _ ls (le - ls) Hascii)).
  destruct (_find_text _ (click - ls) (re_compile r fl) fuel)
    as [[[found' s] e]|] eqn:Hfind; [|discriminate].
  intros [= -> <-].
  apply while_found in Hfind. destruct Hfind as [Hin [pos Hs]].
  apply search_span in Hs. destruct Hs as (_ & He & _).
  rewrite substring_length in He by lia.
  rewrite (set_line_offset_in_line _ _ _ _ s Hpair) by lia.
  rewrite (set_line_offset_in_line _ _ _ _ e Hpair) by lia.
  split.
  - split; [reflexivity|]. exists (ls + s), (ls + e). simpl.
    split; [reflexivity|]. lia.
  - exists (ls + s), (ls + e). simpl.
    split; [reflexivity|]. split; [lia|]. split; [lia|].
    intros i Hi. apply Hline. lia.
Qed.



(** X11: for a click in the buffer that is before its end, or in a buffer
    of ASCII text, and a compiled pattern, when
    [_select_multiple_line_regex] returns, either nothing was found and the
    document is as before, or the text is as before and the range selected
    lies in the text and contains the click. *)
Theorem multiple_line_selection (r : regex) (fl : re_flags) (fuel : nat)
    (doc : document) (click : nat) (found : bool) (doc' : document) :
  click <= String.length (get_text doc) ->
  click < String.length (get_text doc) \/ is_ascii (get_text doc) = true ->
  _select_multiple_line_regex fuel doc click (re_compile r fl) =
    Some (found, doc') ->
  (found = true -> selected_around click doc doc') /\
  (found = false -> doc' = doc).
Proof.
  intros Hclick Hcase H. split.
  - intros ->. exact (select_multiple_spec _ _ _ _ _ _ Hclick Hcase H).
  - apply (select_multiple_frame _ _ _ _ _ _ H).
Qed.

Lemma multiple_line_selection_witness :
  selected_around 12 {| get_text := two_lines; get_selection := None |}
                  {| get_text := two_lines; get_selection := Some (9, 18) |}.
Proof.
  apply (multiple_line_selection (Seq Bol (Seq (Star Any) (Lit newline)))
           re_M 5 {| get_text := two_lines; get_selection := None |} 12 true).
  - simpl. lia.
  - left. simpl. lia.
  - vm_compute. reflexivity.
  - reflexivity.
Defined.

Section Presses.

Variable get_op_of_click : nat -> SelectionOp.
Variable get_op_of_name : string -> SelectionOp.
Variable _get_insert_iter : document -> nat.

Lemma select_regex_frame fuel action_or_op click_iter doc found doc' :
  _select_regex get_op_of_name _get_insert_iter fuel action_or_op click_iter
                doc = Some (found, doc') ->
  get_text doc' = get_text doc /\ (found = false -> doc' = doc).
Proof.
  unfold _select_regex. destruct (MULTILINE _).
  - apply select_multiple_frame.
  - apply select_single_frame.
Qed.

Lemma select_regex_spec fuel action_or_op click_iter doc doc' :
  let at_ := match click_iter with
             | Some it => it
             | None => _get_insert_iter doc
             end in
  let op := match action_or_op with
            | inl op => op
            | inr op_name => get_op_of_name op_name
            end in
  at_ <= String.length (get_text doc) ->
  is_ascii (get_text doc) = true ->
  _select_regex get_op_of_name _get_insert_iter fuel action_or_op click_iter
                doc = Some (true, doc') ->
  selected_around at_ doc doc' /\
  (MULTILINE (flags op) = false -> selected_in_line at_ doc doc').
Proof.
  intros at_ op Hat Hascii. unfold _select_regex. fold op. fold at_.
  destruct (MULTILINE (flags op)) eqn:HM.
  - intros H. apply select_multiple_spec in H; [|exact Hat|right; exact Hascii].
    split; [exact H|discriminate].
  - intros H. apply select_single_spec in H; [|exact Hat|exact Hascii].
    split; [apply H|intros _; apply H].
Qed.

End Presses.



(** ** From the press to the selection *)





(** ** Connecting and disconnecting the mouse handlers *)

Lemma disconnect_each_spec (l : list (nat * nat)) (d : gmap nat nat)
    (calls : list gtk_call) :
  NoDup l.*1 ->
  (forall view id, (view, id) ∈ l -> d !! view = Some id) ->
  exists d',
    disconnect_each l.*1
      {| _mouse_handler_ids_per_view := d; gtk_calls := calls |} =
    Some {| _mouse_handler_ids_per_view := d';
            gtk_calls := calls ++ map (fun vi => Disconnect vi.1 vi.2) l |} /\
    (forall view, view ∈ l.*1 -> d' !! view = None) /\
    (forall view id, d' !! view = Some id -> d !! view = Some id).
Proof.
  revert d calls. induction l as [|[v i] l IH]; intros d calls Hnd Hin.
  - exists d. simpl. rewrite app_nil_r. split; [reflexivity|].
    split; [intros view Hv; inversion Hv|auto].
  - simpl in Hnd. apply NoDup_cons in Hnd. destruct Hnd as [Hv Hnd].
    cbn [fmap list_fmap disconnect_each fst _mouse_handler_ids_per_view
         gtk_calls].
    rewrite (Hin v i) by (left).
    destruct (IH (delete v d) (calls ++ [Disconnect v i]) Hnd)
      as (d' & Hrun & Hgone & Hsub).
    { intros view id Hvi. assert (view <> v).
      { intros ->. apply Hv. apply list_elem_of_fmap. exists (v, id). auto. }
      rewrite lookup_delete_ne by congruence. apply Hin. right. exact Hvi. }
    exists d'. split; [|split].
    + rewrite Hrun. simpl. rewrite <- app_assoc. reflexivity.
    + intros view Hview. apply elem_of_cons in Hview.
      destruct Hview as [->|Hview]; [|apply Hgone; exact Hview].
      destruct (d' !! v) as [id|] eqn:Hd; [|reflexivity].
      apply Hsub in Hd. rewrite lookup_delete_eq in Hd. discriminate.
    + intros view id Hd. apply Hsub in Hd.
      apply lookup_delete_Some in Hd. apply Hd.
Qed.

Lemma disconnect_mouse_handlers_spec (st : mouse_handlers) :
  _disconnect_mouse_handlers st =
  Some {| _mouse_handler_ids_per_view := ∅;
          gtk_calls :=
            gtk_calls st ++
            map (fun vi => Disconnect vi.1 vi.2)
                (map_to_list (_mouse_handler_ids_per_view st)) |}.
Proof.
  destruct st as [d calls]. unfold _disconnect_mouse_handlers.
  cbn [_mouse_handler_ids_per_view gtk_calls].
  destruct (disconnect_each_spec (map_to_list d) d calls)
    as (d' & Hrun & Hgone & Hsub).
  { apply NoDup_fst_map_to_list. }
  { intros view id. apply elem_of_map_to_list. }
  rewrite Hrun. f_equal. f_equal.
  apply map_empty. intros view.
  destruct (d' !! view) as [id|] eqn:Hd; [|reflexivity].
  pose proof (Hsub _ _ Hd) as Hd0. rewrite <- Hd. apply Hgone.
  apply list_elem_of_fmap. exists (view, id). split; [reflexivity|].
  apply elem_of_map_to_list. exact Hd0.
Qed.

Lemma connected_disconnects (l : list (nat * nat)) :
  connected (map (fun vi => Disconnect vi.1 vi.2) l) = [].
Proof. induction l as [|[v i] l IH]; simpl; [reflexivity|exact IH]. Qed.

Lemma disconnected_disconnects (l : list (nat * nat)) :
  disconnected (map (fun vi => Disconnect vi.1 vi.2) l) = l.
Proof.
  induction l as [|[v i] l IH]; simpl; [reflexivity|]. f_equal. exact IH.
Qed.

Lemma disconnect_mouse_handlers_calls (st : mouse_handlers) :
  exists st',
    _disconnect_mouse_handlers st = Some st' /\
    _mouse_handler_ids_per_view st' = ∅ /\
    connected (gtk_calls st') = connected (gtk_calls st) /\
    disconnected (gtk_calls st') ≡ₚ
      disconnected (gtk_calls st) ++
      map_to_list (_mouse_handler_ids_per_view st).
Proof.
  eexists. split; [apply disconnect_mouse_handlers_spec|].
  cbn [_mouse_handler_ids_per_view gtk_calls].
  split; [reflexivity|].
  unfold connected, disconnected. rewrite !omap_app.
  fold (connected (map (fun vi : nat * nat => Disconnect vi.1 vi.2)
                       (map_to_list (_mouse_handler_ids_per_view st)))).
  fold (disconnected (map (fun vi : nat * nat => Disconnect vi.1 vi.2)
                          (map_to_list (_mouse_handler_ids_per_view st)))).
  rewrite connected_disconnects, disconnected_disconnects, app_nil_r.
  split; reflexivity.
Qed.

(** X15: [_disconnect_mouse_handlers] raises no [KeyError], whatever the
    dictionary holds; it leaves the dictionary empty and calls
    [view.disconnect(id)] once for each entry of it, and makes no other
    call. *)
Theorem disconnect_mouse_handlers_empties (st : mouse_handlers) :
  exists st',
    _disconnect_mouse_handlers st = Some st' /\
    _mouse_handler_ids_per_view st' = ∅ /\
    connected (gtk_calls st') = connected (gtk_calls st) /\
    disconnected (gtk_calls st') ≡ₚ
      disconnected (gtk_calls st) ++
      map_to_list (_mouse_handler_ids_per_view st).
Proof. apply disconnect_mouse_handlers_calls. Qed.

Lemma connect_view_keeps (view id : nat) (st : mouse_handlers) :
  connected (gtk_calls st) ≡ₚ map_to_list (_mouse_handler_ids_per_view st) ->
  disconnected (gtk_calls st) = [] ->
  connected (gtk_calls (_connect_view view id st)) ≡ₚ
    map_to_list (_mouse_handler_ids_per_view (_connect_view view id st)) /\
  disconnected (gtk_calls (_connect_view view id st)) = [].
Proof.
  intros Hc Hd. unfold _connect_view.
  destruct (_mouse_handler_ids_per_view st !! view) eqn:Hlook;
    [split; assumption|].
  unfold _connect_mouse_handler, connected, disconnected.
  cbn [_mouse_handler_ids_per_view gtk_calls]. rewrite !omap_app. simpl.
  fold (connected (gtk_calls st)). fold (disconnected (gtk_calls st)).
  rewrite Hd. split; [|reflexivity].
  rewrite map_to_list_insert by exact Hlook.
  rewrite Hc. symmetry. apply Permutation_cons_append.
Qed.

Lemma connect_views_keep (views : list (nat * nat)) (st : mouse_handlers) :
  connected (gtk_calls st) ≡ₚ map_to_list (_mouse_handler_ids_per_view st) ->
  disconnected (gtk_calls st) = [] ->
  connected (gtk_calls (connect_views views st)) ≡ₚ
    map_to_list (_mouse_handler_ids_per_view (connect_views views st)) /\
  disconnected (gtk_calls (connect_views views st)) = [].
Proof.
  revert st. induction views as [|[v i] views IH]; intros st Hc Hd;
    [split; assumption|].
  cbn [connect_views foldl]. apply IH; apply connect_view_keeps; assumption.
Qed.

(** X16: when the views of a window are connected with [_connect_view],
    in any number and order and with repetitions, and
    [_disconnect_mouse_handlers] is called afterwards, then no view was
    connected twice and the handlers disconnected are exactly the handlers
    connected, each once: none is left connected. *)
Theorem no_mouse_handler_left (views : list (nat * nat)) :
  exists st',
    _disconnect_mouse_handlers (connect_views views no_mouse_handlers) =
      Some st' /\
    _mouse_handler_ids_per_view st' = ∅ /\
    NoDup (connected (gtk_calls st')).*1 /\
    disconnected (gtk_calls st') ≡ₚ connected (gtk_calls st').
Proof.
  destruct (connect_views_keep views no_mouse_handlers) as [Hc Hd];
    [simpl; rewrite map_to_list_empty; reflexivity|reflexivity|].
  destruct (disconnect_mouse_handlers_calls
              (connect_views views no_mouse_handlers))
    as (st' & Hrun & Hempty & Hconn & Hdisc).
  exists st'. split; [exact Hrun|]. split; [exact Hempty|].
  rewrite Hconn. split.
  - rewrite Hc. apply NoDup_fst_map_to_list.
  - rewrite Hdisc, Hd, Hc. reflexivity.
Qed.

(** ** A press after a quadruple click *)

Open Scope Q_scope.

(** X17: while none of the level-1, level-2 and level-3 times is later
    than the level-4 time, as it is after the fourth click of a run, a
    single press is never suppressed: within the interval of the level-4
    time it emits 5 and records slot 5, also when it is the press of a
    sixth click, and in every other case it emits 1 and records slot 1. *)
Theorem single_press_after_quadruple (h : helper) (now t1 t2 t3 t4 : Q) :
  well_formed h ->
  last_click h 1 = Some t1 -> last_click h 2 = Some t2 ->
  last_click h 3 = Some t3 -> last_click h 4 = Some t4 ->
  t1 <= t4 -> t2 <= t4 -> t3 <= t4 ->
  let d := _double_click_time h in
  (now - t4 < d ->
     _handle_1button_press now h = inr ((false, Some 5%nat), record 5 now h)) /\
  (~ now - t4 < d ->
     _handle_1button_press now h = inr ((false, Some 1%nat), record 1 now h)).
Proof.
  intros W E1 E2 E3 E4 H1 H2 H3. explicit h.
  unfold last_click in E1, E2, E3, E4. simpl in *.
  injection E1 as ->. injection E2 as ->. injection E3 as ->.
  injection E4 as ->.
  rewrite _handle_1button_press_eq. split; intros Hin.
  - rewrite (Qltb_true _ _ Hin). reflexivity.
  - rewrite (Qltb_false (now - t4) d Hin).
    rewrite (Qltb_false (now - t3) d) by (intros Hlt; apply Hin; lra).
    rewrite (Qltb_false (now - t2) d) by (intros Hlt; apply Hin; lra).
    rewrite (Qltb_false (now - t1) d) by (intros Hlt; apply Hin; lra).
    reflexivity.
Qed.

Lemma single_press_after_quadruple_witness :
  _handle_1button_press 7.5
    (Helper [PyNone; PyNum 7; PyNum 7.1; PyNum 7.2; PyNum 7.3; PyNum 7.4] 0.4) =
  inr ((false, Some 5%nat),
       Helper [PyNone; PyNum 7; PyNum 7.1; PyNum 7.2; PyNum 7.3; PyNum 7.5] 0.4).
Proof.
  apply (single_press_after_quadruple
           (Helper [PyNone; PyNum 7; PyNum 7.1; PyNum 7.2; PyNum 7.3;
                    PyNum 7.4] 0.4) 7.5 7 7.1 7.2 7.3
           (well_formed_intro _ _ _ _ _ _ _) eq_refl eq_refl eq_refl eq_refl);
    vm_compute; first [discriminate | reflexivity].
Defined.

Close Scope Q_scope.
